(** * pyaixi: the base class of AIXI-approximate agents

    A shallow embedding of [pyaixi/agent.py].  The agent object is a record,
    its methods are computations in a state-and-exception monad that keeps
    the object as it is at the moment an exception is raised.  Integers are
    [Z].  The reward statistics are read twice: in exact arithmetic, over
    the canonical rationals [Qc], for what the algorithm computes; and, in
    [Py], over numbers whose operations round and raise as Python's do, for
    what a call may raise and leave behind. *)

From Stdlib Require Import ZArith QArith Qcanon Lia List SpecFloat.
From stdpp Require Import gmap strings list.
Import ListNotations.

Open Scope Z_scope.

(** ** Exceptions *)

(** The messages of the [assert] statements of [agent.py]. *)
Inductive assertion : Type :=
| NonNullEnvironment          (* "A non-null environment is required." *)
| InvalidAction (action : Z)  (* "Invalid action '%s' given." % action *)
| ActionAfterPercept          (* "Can only perform an action update after a percept update." *)
| PerceptAfterAction.         (* "Can only perform a percept update after an action update." *)

Inductive exn : Type :=
| AssertionError (msg : assertion)
| ZeroDivisionError
| OverflowError
| ValueError
| TypeError
| IndexError
| AttributeError (name : string).

(** The specification's taxonomy of failed preconditions, and the assertion
    each of its names stands for. *)
Inductive error_kind : Type :=
| ConfigurationError
| InvalidActionError
| ProtocolError.

Definition error_kind_of (e : exn) : option error_kind :=
  match e with
  | AssertionError NonNullEnvironment => Some ConfigurationError
  | AssertionError (InvalidAction _) => Some InvalidActionError
  | AssertionError ActionAfterPercept => Some ProtocolError
  | AssertionError PerceptAfterAction => Some ProtocolError
  | _ => None
  end.

(** ** A state-and-exception monad

    A method call either returns a value or raises; in both cases the object
    is left as the statements executed so far have made it. *)

Inductive outcome (S A : Type) : Type :=
| Returned (a : A) (s : S)
| Raised (e : exn) (s : S).
Arguments Returned {S A} a s.
Arguments Raised {S A} e s.

Definition state_after {S A} (o : outcome S A) : S :=
  match o with
  | Returned _ s => s
  | Raised _ s => s
  end.

Definition M (S A : Type) : Type := S -> outcome S A.

Definition ret {S A} (a : A) : M S A := fun s => Returned a s.

Definition bind {S A B} (c : M S A) (k : A -> M S B) : M S B :=
  fun s =>
    match c s with
    | Returned a s' => k a s'
    | Raised e s' => Raised e s'
    end.

Definition raise {S A} (e : exn) : M S A := fun s => Raised e s.

Definition get {S} : M S S := fun s => Returned s s.

Definition modify {S} (f : S -> S) : M S unit := fun s => Returned tt (f s).

(** [assert cond, msg] *)
Definition assert {S} (cond : bool) (msg : assertion) : M S unit :=
  if cond then ret tt else raise (AssertionError msg).

(** An expression that may raise, evaluated inside a method. *)
Definition lift {S A} (r : exn + A) : M S A :=
  match r with
  | inl e => raise e
  | inr a => ret a
  end.

Declare Scope py_scope.
Delimit Scope py_scope with py.
Notation "x <- c ;; k" := (bind c (fun x => k))
  (at level 100, c at next level, right associativity) : py_scope.
Notation "c ;; k" := (bind c (fun _ => k))
  (at level 100, right associativity) : py_scope.

(** ** Numbers *)

(** A Python integer used as a number. *)
Definition Z2Qc (n : Z) : Qc := Q2Qc (inject_Z n).
Arguments Z2Qc : simpl never.

(** [x / n] under [from __future__ import division], in exact arithmetic:
    the quotient is not rounded and nothing but a zero divisor raises.
    [Py.truediv] is the operation with its rounding and its errors. *)
Definition true_div (x : Qc) (n : Z) : exn + Qc :=
  if n =? 0 then inl ZeroDivisionError else inr (x / Z2Qc n)%Qc.

(** [random.randrange(start, stop)] on the draw [u] of the generator:
    an integer of [range(start, stop)], [ValueError] on an empty range. *)
Definition randrange (u : Z) (start stop : Z) : exn + Z :=
  if start <? stop then inr (start + u mod (stop - start)) else inl ValueError.

(** Modelled from the spec: [util.choice] of [pyaixi/util.py], which is not
    among the sources.  It returns one element of the given collection,
    picked by the draw [u] of the generator; on an empty collection, where
    there is nothing to return, it raises as [random.choice] does. *)
Definition choice (u : Z) (seq : list Z) : exn + Z :=
  match seq with
  | [] => inl IndexError
  | x :: _ => inr (nth (Z.to_nat (u mod Z.of_nat (length seq))) seq x)
  end.

(** ** Direct formulas for the statistics *)

Fixpoint Qcsum (rs : list Qc) : Qc :=
  match rs with
  | [] => 0
  | r :: rs => r + Qcsum rs
  end%Qc.

Definition Qclen (rs : list Qc) : Qc := Z2Qc (Z.of_nat (length rs)).

Fixpoint Qcsumsq (rs : list Qc) : Qc :=
  match rs with
  | [] => 0
  | r :: rs => r * r + Qcsumsq rs
  end%Qc.

(** The arithmetic mean of [rs]. *)
Definition mean (rs : list Qc) : Qc := (Qcsum rs / Qclen rs)%Qc.

(** The sum of the squared deviations of [rs] from [m]. *)
Fixpoint squared_deviations (m : Qc) (rs : list Qc) : Qc :=
  match rs with
  | [] => 0
  | r :: rs => (r - m) * (r - m) + squared_deviations m rs
  end%Qc.

(** The population variance of [rs]. *)
Definition variance (rs : list Qc) : Qc :=
  (squared_deviations (mean rs) rs / Qclen rs)%Qc.

(** ** The update enumeration *)

(** Modelled from the spec: [util.enum('action_update', 'percept_update')],
    an enumeration of two distinct values. *)
Inductive update_enum : Type :=
| action_update
| percept_update.

Definition update_eqb (x y : update_enum) : bool :=
  match x, y with
  | action_update, action_update => true
  | percept_update, percept_update => true
  | _, _ => false
  end.

(** ** The environment, as the agent uses it *)

Module Environment.

(** Actions and observations are integers.  An optional attribute is [None]
    when [hasattr] is false of it; a method that is present is given by the
    value its call returns. *)
Record t : Type := {
  is_valid_action : Z -> bool;
  valid_actions : option (list Z);
  minimum_action : option Z;
  maximum_action : option Z;
  maximum_reward : option Qc
}.

End Environment.

(** ** Sample environments *)

(** An environment of two actions, 0 and 1, that lists them. *)
Definition two_actions : Environment.t :=
  {| Environment.is_valid_action := fun a => (0 <=? a) && (a <=? 1);
     Environment.valid_actions := Some [0; 1];
     Environment.minimum_action := Some 0;
     Environment.maximum_action := Some 1;
     Environment.maximum_reward := Some 1%Qc |}.

(** An environment of the single action 0, known by its bounds only. *)
Definition single_action : Environment.t :=
  {| Environment.is_valid_action := fun a => a =? 0;
     Environment.valid_actions := None;
     Environment.minimum_action := Some 0;
     Environment.maximum_action := Some 0;
     Environment.maximum_reward := Some 1%Qc |}.

(** Options that hold integers only. *)
Definition no_objects (o : Empty_set) : exn + Z := match o with end.

(** ** The agent over Python's numbers

    The reading of [agent.py] in which the arithmetic of the reward
    statistics is what the operands make of it: every [-], [/], [+] and [*]
    may raise, and an attribute stays assigned once its statement has run.
    The number type is an interface; [python_numbers] is its instance for
    Python's [int] and [float]. *)

Module Py.

(** The operations of the numbers that [update_reward_statistics] uses.
    [truediv] divides by an [int], as [delta / n] does. *)
Record arithmetic : Type := {
  number : Type;
  int_zero : number;     (* the [0] of [__init__] *)
  sub : number -> number -> exn + number;
  add : number -> number -> exn + number;
  mul : number -> number -> exn + number;
  truediv : number -> Z -> exn + number
}.

(** Arithmetic that raises no [AssertionError], as that of the built-in
    numbers. *)
Definition raises_no_assertion (N : arithmetic) : Prop :=
  (forall x y e, sub N x y = inl e -> error_kind_of e = None) /\
  (forall x y e, add N x y = inl e -> error_kind_of e = None) /\
  (forall x y e, mul N x y = inl e -> error_kind_of e = None) /\
  (forall x n e, truediv N x n = inl e -> error_kind_of e = None).

(** *** Python's [int] and [float] *)

(** A [float] is an IEEE 754 binary64 number. *)
Definition prec : Z := 53.
Definition emax : Z := 1024.

Inductive pynumber : Type :=
| PyInt (z : Z)
| PyFloat (f : spec_float).

(** An integer as a mantissa with exponent 0. *)
Definition int_as_float (z : Z) : spec_float :=
  match z with
  | Z0 => S754_zero false
  | Zpos p => S754_finite false p 0
  | Zneg p => S754_finite true p 0
  end.

(** The conversion of an [int] operand to [float]: the nearest [float],
    ties to even; [OverflowError] beyond the range of [float]. *)
Definition float_of_int (z : Z) : exn + spec_float :=
  match binary_normalize prec emax z 0 false with
  | S754_infinity _ => inl OverflowError
  | f => inr f
  end.

Definition to_float (x : pynumber) : exn + spec_float :=
  match x with
  | PyInt z => float_of_int z
  | PyFloat f => inr f
  end.

(** [x op y] for [-], [+] and [*]: exact on two [int]s; otherwise both
    operands are taken as [float]s and the result is rounded, an overflow
    giving an infinity. *)
Definition binop (zop : Z -> Z -> Z) (fop : spec_float -> spec_float -> spec_float)
    (x y : pynumber) : exn + pynumber :=
  match x, y with
  | PyInt a, PyInt b => inr (PyInt (zop a b))
  | _, _ =>
      match to_float x with
      | inl e => inl e
      | inr a =>
          match to_float y with
          | inl e => inl e
          | inr b => inr (PyFloat (fop a b))
          end
      end
  end.

(** [x / n] for an [int] [n]: [int / int] is the quotient rounded once, with
    [OverflowError] when it is beyond the range of [float]; [float / int]
    converts [n]; a zero divisor raises [ZeroDivisionError]. *)
Definition py_truediv (x : pynumber) (n : Z) : exn + pynumber :=
  match x with
  | PyInt a =>
      if n =? 0 then inl ZeroDivisionError
      else if a =? 0 then inr (PyFloat (S754_zero (n <? 0)))
      else
        match SFdiv prec emax (int_as_float a) (int_as_float n) with
        | S754_infinity _ => inl OverflowError
        | f => inr (PyFloat f)
        end
  | PyFloat f =>
      match float_of_int n with
      | inl e => inl e
      | inr b =>
          if n =? 0 then inl ZeroDivisionError
          else inr (PyFloat (SFdiv prec emax f b))
      end
  end.

Definition python_numbers : arithmetic :=
  {| number := pynumber;
     int_zero := PyInt 0;
     sub := binop Z.sub (SFsub prec emax);
     add := binop Z.add (SFadd prec emax);
     mul := binop Z.mul (SFmul prec emax);
     truediv := py_truediv |}.

(** The [float] [0.5]. *)
Definition half : spec_float := S754_finite false 4503599627370496 (-53).

(** *** The agent *)

Section Agent.

Context {object : Type}.
Variable int_object : object -> exn + Z.
Variable N : arithmetic.

Inductive value : Type :=
| VInt (z : Z)
| VObject (o : object).

(** [int(v)] *)
Definition int (v : value) : exn + Z :=
  match v with
  | VInt z => inr z
  | VObject o => int_object o
  end.

Record Agent : Type := {
  age : Z;
  environment : Environment.t;
  last_update : update_enum;
  learning_period : Z;
  options : gmap string value;
  mean_reward : number N;
  reward_m2 : number N;
  total_reward : number N
}.

Definition set_age (v : Z) (self : Agent) : Agent :=
  {| age := v; environment := environment self; last_update := last_update self;
     learning_period := learning_period self; options := options self;
     mean_reward := mean_reward self; reward_m2 := reward_m2 self;
     total_reward := total_reward self |}.

Definition set_last_update (v : update_enum) (self : Agent) : Agent :=
  {| age := age self; environment := environment self; last_update := v;
     learning_period := learning_period self; options := options self;
     mean_reward := mean_reward self; reward_m2 := reward_m2 self;
     total_reward := total_reward self |}.

Definition set_mean_reward (v : number N) (self : Agent) : Agent :=
  {| age := age self; environment := environment self; last_update := last_update self;
     learning_period := learning_period self; options := options self;
     mean_reward := v; reward_m2 := reward_m2 self;
     total_reward := total_reward self |}.

Definition set_reward_m2 (v : number N) (self : Agent) : Agent :=
  {| age := age self; environment := environment self; last_update := last_update self;
     learning_period := learning_period self; options := options self;
     mean_reward := mean_reward self; reward_m2 := v;
     total_reward := total_reward self |}.

Definition set_total_reward (v : number N) (self : Agent) : Agent :=
  {| age := age self; environment := environment self; last_update := last_update self;
     learning_period := learning_period self; options := options self;
     mean_reward := mean_reward self; reward_m2 := reward_m2 self;
     total_reward := v |}.

Local Open Scope py_scope.

(** [Agent.__init__(self, environment = None, options = {})] *)
Definition Agent_init (environment : option Environment.t)
    (options : gmap string value) : exn + Agent :=
  match environment with
  | None => inl (AssertionError NonNullEnvironment)
  | Some env =>
      match int (default (VInt 0) (options !! "learning-period"%string)) with
      | inl e => inl e
      | inr period =>
          inr {| age := 0;
                 environment := env;
                 last_update := action_update;
                 learning_period := period;
                 options := options;
                 mean_reward := int_zero N;
                 reward_m2 := int_zero N;
                 total_reward := int_zero N |}
      end
  end.

Definition model_update_action (action : Z) : M Agent unit :=
  self <- get ;;
  assert (Environment.is_valid_action (environment self) action) (InvalidAction action) ;;
  assert (update_eqb (last_update self) percept_update) ActionAfterPercept ;;
  modify (fun self => set_age (age self + 1) self) ;;
  modify (set_last_update action_update).

(** Each augmented assignment evaluates its right-hand side, adds, and
    only then stores. *)
Definition update_reward_statistics (reward : number N) : M Agent unit :=
  self <- get ;;
  let n := age self + 1 in
  delta <- lift (sub N reward (mean_reward self)) ;;
  q <- lift (truediv N delta n) ;;
  m <- lift (add N (mean_reward self) q) ;;
  modify (set_mean_reward m) ;;
  self <- get ;;
  d <- lift (sub N reward (mean_reward self)) ;;
  p <- lift (mul N delta d) ;;
  m2 <- lift (add N (reward_m2 self) p) ;;
  modify (set_reward_m2 m2) ;;
  self <- get ;;
  t <- lift (add N (total_reward self) reward) ;;
  modify (set_total_reward t).

Definition model_update_percept (observation : Z) (reward : number N) : M Agent unit :=
  self <- get ;;
  assert (update_eqb (last_update self) action_update) PerceptAfterAction ;;
  update_reward_statistics reward ;;
  modify (set_last_update percept_update).

End Agent.

End Py.

(** ** Option values *)

Section Agent.

(** The values of the options dictionary: integers, and objects of any other
    kind, on which the built-in [int] is left abstract. *)
Context {object : Type}.
Variable int_object : object -> exn + Z.

Inductive value : Type :=
| VInt (z : Z)
| VObject (o : object).

(** [int(v)] *)
Definition int (v : value) : exn + Z :=
  match v with
  | VInt z => inr z
  | VObject o => int_object o
  end.

(** ** The agent *)

Record Agent : Type := {
  age : Z;
  environment : Environment.t;
  last_update : update_enum;
  learning_period : Z;
  options : gmap string value;
  mean_reward : Qc;
  reward_m2 : Qc;
  total_reward : Qc
}.

Definition set_age (v : Z) (self : Agent) : Agent :=
  {| age := v; environment := environment self; last_update := last_update self;
     learning_period := learning_period self; options := options self;
     mean_reward := mean_reward self; reward_m2 := reward_m2 self;
     total_reward := total_reward self |}.

Definition set_last_update (v : update_enum) (self : Agent) : Agent :=
  {| age := age self; environment := environment self; last_update := v;
     learning_period := learning_period self; options := options self;
     mean_reward := mean_reward self; reward_m2 := reward_m2 self;
     total_reward := total_reward self |}.

Definition set_mean_reward (v : Qc) (self : Agent) : Agent :=
  {| age := age self; environment := environment self; last_update := last_update self;
     learning_period := learning_period self; options := options self;
     mean_reward := v; reward_m2 := reward_m2 self;
     total_reward := total_reward self |}.

Definition set_reward_m2 (v : Qc) (self : Agent) : Agent :=
  {| age := age self; environment := environment self; last_update := last_update self;
     learning_period := learning_period self; options := options self;
     mean_reward := mean_reward self; reward_m2 := v;
     total_reward := total_reward self |}.

Definition set_total_reward (v : Qc) (self : Agent) : Agent :=
  {| age := age self; environment := environment self; last_update := last_update self;
     learning_period := learning_period self; options := options self;
     mean_reward := mean_reward self; reward_m2 := reward_m2 self;
     total_reward := v |}.

Local Open Scope py_scope.

(** [Agent.__init__(self, environment = None, options = {})].  A constructor
    that raises yields no object. *)
Definition Agent_init (environment : option Environment.t)
    (options : gmap string value) : exn + Agent :=
  match environment with
  | None => inl (AssertionError NonNullEnvironment)
  | Some env =>
      match int (default (VInt 0) (options !! "learning-period"%string)) with
      | inl e => inl e
      | inr period =>
          inr {| age := 0;
                 environment := env;
                 last_update := action_update;
                 learning_period := period;
                 options := options;
                 mean_reward := 0%Qc;
                 reward_m2 := 0%Qc;
                 total_reward := 0%Qc |}
      end
  end.

Definition average_reward : M Agent Qc :=
  self <- get ;;
  ret (mean_reward self).

Definition generate_random_action (u : Z) : M Agent (option Z) :=
  self <- get ;;
  match Environment.valid_actions (environment self) with
  | Some actions =>
      a <- lift (choice u actions) ;;
      ret (Some a)
  | None =>
      match Environment.minimum_action (environment self),
            Environment.maximum_action (environment self) with
      | Some lo, Some hi =>
          a <- lift (randrange u lo hi) ;;
          ret (Some a)
      | _, _ => ret None
      end
  end.

(** The environment of a constructed agent is never [None], so the [else]
    branch of the source is not reachable; a missing method is an
    [AttributeError]. *)
Definition maximum_action : M Agent (option Z) :=
  self <- get ;;
  match Environment.maximum_action (environment self) with
  | Some a => ret (Some a)
  | None => raise (AttributeError "maximum_action")
  end.

Definition maximum_reward : M Agent (option Qc) :=
  self <- get ;;
  match Environment.maximum_reward (environment self) with
  | Some r => ret (Some r)
  | None => raise (AttributeError "maximum_reward")
  end.

Definition model_size : M Agent Z := ret 0.

Definition model_update_action (action : Z) : M Agent unit :=
  self <- get ;;
  assert (Environment.is_valid_action (environment self) action) (InvalidAction action) ;;
  assert (update_eqb (last_update self) percept_update) ActionAfterPercept ;;
  modify (fun self => set_age (age self + 1) self) ;;
  modify (set_last_update action_update).

(** In exact arithmetic: the three statistics are rationals, and only the
    division can raise.  [Py.update_reward_statistics] is the same method
    over numbers of which every operation may raise. *)
Definition update_reward_statistics (reward : Qc) : M Agent unit :=
  self <- get ;;
  let n := age self + 1 in
  let delta := (reward - mean_reward self)%Qc in
  q <- lift (true_div delta n) ;;
  modify (fun self => set_mean_reward (mean_reward self + q)%Qc self) ;;
  modify (fun self =>
            set_reward_m2 (reward_m2 self + delta * (reward - mean_reward self))%Qc self) ;;
  modify (fun self => set_total_reward (total_reward self + reward)%Qc self).

Definition model_update_percept (observation : Z) (reward : Qc) : M Agent unit :=
  self <- get ;;
  assert (update_eqb (last_update self) action_update) PerceptAfterAction ;;
  update_reward_statistics reward ;;
  modify (set_last_update percept_update).

Definition search : M Agent (option Z) := maximum_action.

Definition reset : M Agent unit :=
  modify (set_age 0) ;;
  modify (set_mean_reward 0%Qc) ;;
  modify (set_reward_m2 0%Qc) ;;
  modify (set_total_reward 0%Qc) ;;
  modify (set_last_update action_update).

(** ** Interaction sequences *)

(** The calls the interaction loop makes on an agent between two resets. *)
Inductive call : Type :=
| AverageReward
| GenerateRandomAction (u : Z)
| MaximumAction
| MaximumReward
| ModelSize
| ModelUpdateAction (action : Z)
| ModelUpdatePercept (observation : Z) (reward : Qc)
| Search.

Definition exec (c : call) : M Agent unit :=
  match c with
  | AverageReward => _ <- average_reward ;; ret tt
  | GenerateRandomAction u => _ <- generate_random_action u ;; ret tt
  | MaximumAction => _ <- maximum_action ;; ret tt
  | MaximumReward => _ <- maximum_reward ;; ret tt
  | ModelSize => _ <- model_size ;; ret tt
  | ModelUpdateAction a => model_update_action a
  | ModelUpdatePercept o r => model_update_percept o r
  | Search => _ <- search ;; ret tt
  end.

(** A sequence of calls is accepted when every call of it returns. *)
Fixpoint run (cs : list call) : M Agent unit :=
  match cs with
  | [] => ret tt
  | c :: cs => exec c ;; run cs
  end.

(** The number of action updates of a sequence. *)
Fixpoint action_updates (cs : list call) : nat :=
  match cs with
  | [] => 0
  | ModelUpdateAction _ :: cs => S (action_updates cs)
  | _ :: cs => action_updates cs
  end.

(** The rewards a sequence delivers, in order. *)
Fixpoint rewards (cs : list call) : list Qc :=
  match cs with
  | [] => []
  | ModelUpdatePercept _ r :: cs => r :: rewards cs
  | _ :: cs => rewards cs
  end.

(** An agent at the start of a trial: just constructed, or just reset. *)
Inductive started : Agent -> Prop :=
| started_init env opts s :
    Agent_init (Some env) opts = inr s -> started s
| started_reset s s' :
    reset s = Returned tt s' -> started s'.

(** The agent after an accepted percept update that delivers [r]. *)
Definition perceived (r : Qc) (s : Agent) : Agent :=
  let delta := (r - mean_reward s)%Qc in
  let m := (mean_reward s + delta / Z2Qc (age s + 1))%Qc in
  {| age := age s; environment := environment s; last_update := percept_update;
     learning_period := learning_period s; options := options s;
     mean_reward := m;
     reward_m2 := (reward_m2 s + delta * (r - m))%Qc;
     total_reward := (total_reward s + r)%Qc |}.

(** What the counters of an agent are after the calls [h] of a trial. *)
Record consistent (s : Agent) (h : list call) : Prop := {
  consistent_age : age s = Z.of_nat (action_updates h);
  consistent_phase :
    Z.of_nat (length (rewards h)) =
      age s + (if update_eqb (last_update s) percept_update then 1 else 0);
  consistent_total : total_reward s = Qcsum (rewards h);
  consistent_mean : (mean_reward s * Qclen (rewards h))%Qc = Qcsum (rewards h);
  consistent_m2 :
    reward_m2 s = (Qcsumsq (rewards h) - mean_reward s * Qcsum (rewards h))%Qc
}.

(** The agent [Agent(env, {})]. *)
Definition new_agent (env : Environment.t) : Agent :=
  {| age := 0; environment := env; last_update := action_update;
     learning_period := 0; options := ∅;
     mean_reward := 0%Qc; reward_m2 := 0%Qc; total_reward := 0%Qc |}.

(** Options that set a learning period of 5 cycles. *)
Definition sample_options : gmap string value :=
  {[ "learning-period"%string := VInt 5 ]}.

(** One trial that respects the protocol: each reward of [rs] is delivered
    by a percept update and answered by an action update. *)
Fixpoint trial (o a : Z) (rs : list Qc) : list call :=
  match rs with
  | [] => []
  | r :: rs => ModelUpdatePercept o r :: ModelUpdateAction a :: trial o a rs
  end.

(** ** Further notions over interaction sequences *)

(** The update calls of a sequence, its queries left out. *)
Fixpoint updates_of (cs : list call) : list call :=
  match cs with
  | [] => []
  | ModelUpdateAction a :: cs => ModelUpdateAction a :: updates_of cs
  | ModelUpdatePercept o r :: cs => ModelUpdatePercept o r :: updates_of cs
  | _ :: cs => updates_of cs
  end.

(** Whether the updates of a sequence take turns, a percept update coming
    next when [percept_next]; queries may stand anywhere. *)
Fixpoint alternates (percept_next : bool) (cs : list call) : bool :=
  match cs with
  | [] => true
  | ModelUpdateAction _ :: cs => negb percept_next && alternates true cs
  | ModelUpdatePercept _ _ :: cs => percept_next && alternates false cs
  | _ :: cs => alternates percept_next cs
  end.

(** The agents that [s0] can become by calls of its methods, whether they
    return or raise. *)
Inductive evolves (s0 : Agent) : Agent -> Prop :=
| evolves_refl : evolves s0 s0
| evolves_exec c s :
    evolves s0 s -> evolves s0 (state_after (exec c s))
| evolves_reset s :
    evolves s0 s -> evolves s0 (state_after (reset s))
| evolves_statistics r s :
    evolves s0 s -> evolves s0 (state_after (update_reward_statistics r s)).

(** The agent [s] with other options and another learning period. *)
Definition configure (opts : gmap string value) (period : Z) (s : Agent) : Agent :=
  {| age := age s; environment := environment s; last_update := last_update s;
     learning_period := period; options := opts;
     mean_reward := mean_reward s; reward_m2 := reward_m2 s;
     total_reward := total_reward s |}.

(** An outcome, with the object mapped. *)
Definition outcome_map {A} (f : Agent -> Agent) (o : outcome Agent A) : outcome Agent A :=
  match o with
  | Returned a s => Returned a (f s)
  | Raised e s => Raised e (f s)
  end.

(** * Properties *)

(** ** Arithmetic of [Z2Qc] *)

Lemma Z2Qc_add (a b : Z) : Z2Qc (a + b) = (Z2Qc a + Z2Qc b)%Qc.
Proof.
  apply Qc_is_canon. unfold Z2Qc. simpl.
  rewrite !Qred_correct, inject_Z_plus. reflexivity.
Qed.

Lemma Z2Qc_1 : Z2Qc 1 = 1%Qc.
Proof. apply Qc_is_canon. reflexivity. Qed.

Lemma Z2Qc_0 : Z2Qc 0 = 0%Qc.
Proof. apply Qc_is_canon. reflexivity. Qed.

Lemma Z2Qc_nonzero (n : Z) : n <> 0 -> Z2Qc n <> 0%Qc.
Proof.
  intros Hn H. apply Hn.
  assert (E : (inject_Z n == inject_Z 0)%Q).
  { apply (f_equal this) in H. unfold Z2Qc in H. simpl in H.
    rewrite <- (Qred_correct (inject_Z n)), H. reflexivity. }
  unfold Qeq in E. simpl in E. lia.
Qed.

(** ** The methods, call by call *)

Lemma model_update_action_eq (a : Z) (s : Agent) :
  model_update_action a s =
    if Environment.is_valid_action (environment s) a then
      if update_eqb (last_update s) percept_update then
        Returned tt (set_last_update action_update (set_age (age s + 1) s))
      else Raised (AssertionError ActionAfterPercept) s
    else Raised (AssertionError (InvalidAction a)) s.
Proof.
  unfold model_update_action, bind, get, assert, modify, ret, raise.
  destruct (Environment.is_valid_action (environment s) a); [|reflexivity].
  destruct (update_eqb (last_update s) percept_update); reflexivity.
Qed.

Lemma update_reward_statistics_eq (r : Qc) (s : Agent) :
  update_reward_statistics r s =
    if age s + 1 =? 0 then Raised ZeroDivisionError s
    else Returned tt (set_last_update (last_update s) (perceived r s)).
Proof.
  unfold update_reward_statistics, bind, get, lift, true_div, modify, ret, raise.
  destruct (age s + 1 =? 0); reflexivity.
Qed.

Lemma model_update_percept_eq (o : Z) (r : Qc) (s : Agent) :
  model_update_percept o r s =
    if update_eqb (last_update s) action_update then
      if age s + 1 =? 0 then Raised ZeroDivisionError s
      else Returned tt (perceived r s)
    else Raised (AssertionError PerceptAfterAction) s.
Proof.
  unfold model_update_percept, bind at 1 2, get, assert.
  destruct (update_eqb (last_update s) action_update); [|reflexivity].
  unfold ret, bind. rewrite update_reward_statistics_eq.
  destruct (age s + 1 =? 0); reflexivity.
Qed.

Lemma reset_eq (s : Agent) :
  reset s =
    Returned tt
      {| age := 0; environment := environment s; last_update := action_update;
         learning_period := learning_period s; options := options s;
         mean_reward := 0%Qc; reward_m2 := 0%Qc; total_reward := 0%Qc |}.
Proof. reflexivity. Qed.

(** The queries leave the agent as it is, whether they return or raise. *)
Lemma query_state_after (c : call) (s : Agent) :
  (forall a, c <> ModelUpdateAction a) ->
  (forall o r, c <> ModelUpdatePercept o r) ->
  state_after (exec c s) = s.
Proof.
  intros Ha Hp. destruct c; try reflexivity.
  - unfold exec, generate_random_action, bind, get, lift, choice, randrange, ret, raise.
    destruct (Environment.valid_actions (environment s)) as [[|x xs]|]; try reflexivity.
    destruct (Environment.minimum_action (environment s)) as [lo|]; try reflexivity.
    destruct (Environment.maximum_action (environment s)) as [hi|]; try reflexivity.
    destruct (lo <? hi); reflexivity.
  - unfold exec, maximum_action, bind, get.
    destruct (Environment.maximum_action (environment s)); reflexivity.
  - unfold exec, maximum_reward, bind, get.
    destruct (Environment.maximum_reward (environment s)); reflexivity.
  - exfalso. eapply Ha. reflexivity.
  - exfalso. eapply Hp. reflexivity.
  - unfold exec, search, maximum_action, bind, get.
    destruct (Environment.maximum_action (environment s)); reflexivity.
Qed.

(** ** Sums over a history *)

Lemma Qcsum_app (xs ys : list Qc) : Qcsum (xs ++ ys) = (Qcsum xs + Qcsum ys)%Qc.
Proof. induction xs as [|x xs IH]; simpl; [ring | rewrite IH; ring]. Qed.

Lemma Qcsumsq_app (xs ys : list Qc) :
  Qcsumsq (xs ++ ys) = (Qcsumsq xs + Qcsumsq ys)%Qc.
Proof. induction xs as [|x xs IH]; simpl; [ring | rewrite IH; ring]. Qed.

Lemma Qclen_app (xs ys : list Qc) : Qclen (xs ++ ys) = (Qclen xs + Qclen ys)%Qc.
Proof.
  unfold Qclen. rewrite length_app, Nat2Z.inj_add. apply Z2Qc_add.
Qed.

Lemma Qclen_cons (x : Qc) (xs : list Qc) : Qclen (x :: xs) = (1 + Qclen xs)%Qc.
Proof.
  unfold Qclen. cbn [length].
  rewrite Nat2Z.inj_succ, <- Z.add_1_l, Z2Qc_add, Z2Qc_1. reflexivity.
Qed.

Lemma Qclen_nonzero (xs : list Qc) : xs <> [] -> Qclen xs <> 0%Qc.
Proof.
  intros H. apply Z2Qc_nonzero. destruct xs; [congruence | simpl; lia].
Qed.

Lemma rewards_app (xs ys : list call) : rewards (xs ++ ys) = rewards xs ++ rewards ys.
Proof.
  induction xs as [|c xs IH]; simpl; [reflexivity|].
  destruct c; simpl; rewrite ?IH; reflexivity.
Qed.

Lemma action_updates_app (xs ys : list call) :
  action_updates (xs ++ ys) = (action_updates xs + action_updates ys)%nat.
Proof.
  induction xs as [|c xs IH]; simpl; [reflexivity|].
  destruct c; simpl; rewrite ?IH; reflexivity.
Qed.

(** The direct sum of squared deviations, expanded. *)
Lemma squared_deviations_expand (m : Qc) (rs : list Qc) :
  squared_deviations m rs =
    (Qcsumsq rs - (1 + 1) * m * Qcsum rs + Qclen rs * (m * m))%Qc.
Proof.
  induction rs as [|r rs IH].
  - unfold Qclen. cbn [squared_deviations Qcsumsq Qcsum length].
    change (Z.of_nat 0) with 0. rewrite Z2Qc_0. ring.
  - rewrite Qclen_cons. cbn [squared_deviations Qcsumsq Qcsum].
    rewrite IH. ring.
Qed.

(** ** One step of Welford's algorithm *)

Lemma welford_mean (m r S N : Qc) :
  N <> 0%Qc -> (m * (N - 1))%Qc = S ->
  ((m + (r - m) / N) * N)%Qc = (S + r)%Qc.
Proof. intros HN <-. field. exact HN. Qed.

Lemma welford_m2 (m r S SS N : Qc) :
  N <> 0%Qc -> (m * (N - 1))%Qc = S ->
  ((SS - m * S) + (r - m) * (r - (m + (r - m) / N)))%Qc =
    ((SS + r * r) - (m + (r - m) / N) * (S + r))%Qc.
Proof. intros HN <-. field. exact HN. Qed.

(** ** The counters along a trial *)

Lemma started_consistent (s : Agent) : started s -> consistent s [].
Proof.
  intros [env opts s0 H | s0 s1 H].
  - unfold Agent_init in H.
    destruct (int _) as [e|p]; inversion H; subst; clear H.
    split; simpl; try reflexivity; ring.
  - rewrite reset_eq in H. inversion H; subst; clear H.
    split; simpl; try reflexivity; ring.
Qed.

Lemma exec_consistent (c : call) (s s' : Agent) (h : list call) :
  consistent s h -> exec c s = Returned tt s' -> consistent s' (h ++ [c]).
Proof.
  intros [Hage Hph Htot Hmean Hm2] H.
  assert (Hq : (forall a, c <> ModelUpdateAction a) ->
               (forall o r, c <> ModelUpdatePercept o r) ->
               rewards [c] = [] -> action_updates [c] = 0%nat ->
               consistent s' (h ++ [c])).
  { intros Ha Hp Hr Hu.
    pose proof (query_state_after c s Ha Hp) as E. rewrite H in E. simpl in E. subst s'.
    split; rewrite ?rewards_app, ?action_updates_app, ?Hr, ?Hu, ?app_nil_r,
      ?Nat.add_0_r; assumption. }
  destruct c as [ |u| | | |a|o r| ]; try (apply Hq; [discriminate..|reflexivity|reflexivity]).
  - (* model_update_action *)
    simpl in H. rewrite model_update_action_eq in H.
    destruct (Environment.is_valid_action (environment s) a); [|discriminate].
    destruct (update_eqb (last_update s) percept_update) eqn:E; [|discriminate].
    inversion H; subst; clear H.
    split; rewrite ?rewards_app, ?action_updates_app; simpl; rewrite ?app_nil_r;
      try assumption.
    + lia.
    + lia.
  - (* model_update_percept *)
    simpl in H. rewrite model_update_percept_eq in H.
    destruct (update_eqb (last_update s) action_update) eqn:E; [|discriminate].
    destruct (age s + 1 =? 0) eqn:E0; [discriminate|].
    inversion H; subst; clear H.
    assert (Hp : update_eqb (last_update s) percept_update = false)
      by (destruct (last_update s); [reflexivity | discriminate]).
    rewrite Hp in Hph.
    assert (HN : Z2Qc (age s + 1) <> 0%Qc) by (apply Z2Qc_nonzero; lia).
    assert (Hlen : Qclen (rewards h) = (Z2Qc (age s + 1) - 1)%Qc).
    { unfold Qclen. rewrite Hph, Z.add_0_r, Z2Qc_add, Z2Qc_1. ring. }
    rewrite Hlen in Hmean.
    split; rewrite ?rewards_app, ?action_updates_app; cbn [rewards perceived
      age last_update mean_reward reward_m2 total_reward update_eqb].
    + simpl. lia.
    + rewrite length_app. simpl. lia.
    + rewrite Qcsum_app, Htot. simpl. ring.
    + rewrite Qclen_app, Qcsum_app, Hlen.
      change (Qclen [r]) with (Z2Qc 1). rewrite Z2Qc_1.
      replace (Z2Qc (age s + 1) - 1 + 1)%Qc with (Z2Qc (age s + 1)) by ring.
      cbn [Qcsum]. replace (r + 0)%Qc with r by ring.
      apply welford_mean; assumption.
    + rewrite Qcsum_app, Qcsumsq_app, Hm2. cbn [Qcsum Qcsumsq].
      replace (r + 0)%Qc with r by ring.
      replace (r * r + 0)%Qc with (r * r)%Qc by ring.
      apply welford_m2; assumption.
Qed.

Lemma run_consistent (cs : list call) :
  forall (s s' : Agent) (h : list call),
    consistent s h -> run cs s = Returned tt s' -> consistent s' (h ++ cs).
Proof.
  induction cs as [|c cs IH]; intros s s' h Hc H.
  - inversion H; subst. rewrite app_nil_r. assumption.
  - simpl in H. unfold bind in H.
    destruct (exec c s) as [[] s1|e s1] eqn:E; [|discriminate].
    replace (h ++ c :: cs) with ((h ++ [c]) ++ cs) by (rewrite <- app_assoc; reflexivity).
    eapply IH; [|eassumption]. eapply exec_consistent; eassumption.
Qed.

(** ** Construction and reset *)

Lemma Agent_init_new (env : Environment.t) :
  Agent_init (Some env) ∅ = inr (new_agent env).
Proof. unfold Agent_init. rewrite lookup_empty. reflexivity. Qed.

(** C9: construction raises the assertion on a null environment
    (ConfigurationError); on a non-null environment it yields an agent of
    age 0, in the phase after an action update, with zero reward
    statistics, that holds the environment and the options it was given,
    and whose learning period is 0 when the options have no
    ['learning-period'], the entry itself when it is an integer, and in
    general what [int] makes of the entry. *)
Theorem construction_of_agent (env : Environment.t) (opts : gmap string value) :
  let constructed (period : Z) :=
    exists s, Agent_init (Some env) opts = inr s /\
      age s = 0 /\ last_update s = action_update /\
      mean_reward s = 0%Qc /\ reward_m2 s = 0%Qc /\ total_reward s = 0%Qc /\
      environment s = env /\ options s = opts /\
      learning_period s = period in
  (exists e, Agent_init None opts = inl e /\
             error_kind_of e = Some ConfigurationError) /\
  (opts !! "learning-period"%string = None -> constructed 0) /\
  (forall z, opts !! "learning-period"%string = Some (VInt z) -> constructed z) /\
  (forall v period, opts !! "learning-period"%string = Some v ->
     int v = inr period -> constructed period).
Proof.
  intros constructed.
  assert (H : forall v period, default (VInt 0) (opts !! "learning-period"%string) = v ->
                int v = inr period -> constructed period).
  { intros v period Ev Hint. unfold constructed, Agent_init. rewrite Ev, Hint.
    eexists. split; [reflexivity|]. simpl. repeat split. }
  split; [|split; [|split]].
  - eexists. split; reflexivity.
  - intros E. apply (H (VInt 0)); [rewrite E|]; reflexivity.
  - intros z E. apply (H (VInt z)); [rewrite E|]; reflexivity.
  - intros v period E Hint. apply (H v); [rewrite E; reflexivity | exact Hint].
Qed.

(** An entry that [int] rejects makes the construction raise what [int]
    raises. *)
Lemma Agent_init_int_raises (env : Environment.t) (opts : gmap string value)
    (v : value) (e : exn) :
  opts !! "learning-period"%string = Some v -> int v = inl e ->
  Agent_init (Some env) opts = inl e.
Proof. intros E Hint. unfold Agent_init. rewrite E. simpl. rewrite Hint. reflexivity. Qed.

(** C8: [reset] returns, with age 0, zero mean reward, zero M2, zero total
    reward and the phase after an action update, whatever the agent was;
    the environment, the options and the learning period stay. *)
Theorem reset_effect (s : Agent) :
  exists s', reset s = Returned tt s' /\
    age s' = 0 /\ mean_reward s' = 0%Qc /\ reward_m2 s' = 0%Qc /\
    total_reward s' = 0%Qc /\ last_update s' = action_update /\
    environment s' = environment s /\ options s' = options s /\
    learning_period s' = learning_period s.
Proof.
  rewrite reset_eq. eexists. split; [reflexivity|]. simpl. repeat split.
Qed.

(** ** Trials that respect the protocol are accepted, in exact arithmetic *)

Lemma started_fields (s : Agent) :
  started s -> age s = 0 /\ last_update s = action_update.
Proof.
  intros [env opts s0 H | s0 s1 H].
  - unfold Agent_init in H.
    destruct (int _) as [e|p]; inversion H; subst; clear H. split; reflexivity.
  - rewrite reset_eq in H. inversion H; subst; clear H. split; reflexivity.
Qed.

Lemma trial_accepted_from (o a : Z) (rs : list Qc) :
  forall s : Agent,
    0 <= age s -> last_update s = action_update ->
    Environment.is_valid_action (environment s) a = true ->
    exists s', run (trial o a rs) s = Returned tt s'.
Proof.
  induction rs as [|r rs IH]; intros s Hage Hph Hval.
  - eexists. reflexivity.
  - cbn [trial run exec]. unfold bind at 1.
    rewrite model_update_percept_eq, Hph. cbn [update_eqb].
    destruct (age s + 1 =? 0) eqn:E; [lia|].
    unfold bind at 1. rewrite model_update_action_eq.
    cbn [perceived environment last_update update_eqb]. rewrite Hval.
    apply IH; simpl; [lia | reflexivity | assumption].
Qed.

Lemma trial_accepted (o a : Z) (rs : list Qc) (s : Agent) :
  started s -> Environment.is_valid_action (environment s) a = true ->
  exists s', run (trial o a rs) s = Returned tt s'.
Proof.
  intros Hs Hval. destruct (started_fields s Hs) as [Hage Hph].
  apply trial_accepted_from; [lia | assumption | assumption].
Qed.

Lemma rewards_trial (o a : Z) (rs : list Qc) : rewards (trial o a rs) = rs.
Proof. induction rs as [|r rs IH]; simpl; [|rewrite IH]; reflexivity. Qed.

Lemma action_updates_trial (o a : Z) (rs : list Qc) :
  action_updates (trial o a rs) = length rs.
Proof. induction rs as [|r rs IH]; simpl; [|rewrite IH]; reflexivity. Qed.

Lemma run_started (cs : list call) (s s' : Agent) :
  started s -> run cs s = Returned tt s' -> consistent s' cs.
Proof.
  intros Hs H. change cs with ([] ++ cs).
  eapply run_consistent; [apply started_consistent|]; eassumption.
Qed.

(** ** Reward statistics *)

Lemma run_mean (s0 s : Agent) (cs : list call) :
  started s0 -> run cs s0 = Returned tt s -> rewards cs <> [] ->
  mean_reward s = mean (rewards cs).
Proof.
  intros Hs H Hne. destruct (run_started cs s0 s Hs H) as [_ _ _ Hmean _].
  unfold mean. rewrite <- Hmean. field.
  apply Qclen_nonzero. assumption.
Qed.

(** C3: after any sequence of calls accepted from an agent just
    constructed (or just reset), the total reward is the sum of the rewards
    the percept updates of the sequence delivered, and, when there is at
    least one, the mean reward is that sum divided by their number. *)
Theorem mean_and_total_reward (s0 s : Agent) (cs : list call) :
  started s0 -> run cs s0 = Returned tt s ->
  total_reward s = Qcsum (rewards cs) /\
  (rewards cs <> [] -> mean_reward s = mean (rewards cs)).
Proof.
  intros Hs H. split.
  - apply (run_started cs s0 s Hs H).
  - apply (run_mean s0 s cs Hs H).
Qed.

(** Every list of rewards can be delivered: the trial that alternates percept
    and action updates is accepted, and leaves the statistics of the list. *)
Lemma trial_statistics (o a : Z) (rs : list Qc) (s0 : Agent) :
  started s0 -> Environment.is_valid_action (environment s0) a = true ->
  exists s, run (trial o a rs) s0 = Returned tt s /\
            age s = Z.of_nat (length rs) /\
            total_reward s = Qcsum rs /\
            (rs <> [] -> mean_reward s = mean rs).
Proof.
  intros Hs Hval. destruct (trial_accepted o a rs s0 Hs Hval) as [s H].
  exists s. split; [exact H|].
  pose proof (run_started _ s0 s Hs H) as [Hage _ Htot _ _].
  pose proof (run_mean s0 s _ Hs H) as Hm.
  rewrite rewards_trial in *. rewrite action_updates_trial in Hage.
  repeat split; assumption.
Qed.

(** C4: after any sequence of calls accepted from an agent just
    constructed (or just reset) that delivered at least one reward, M2 is
    the sum of the squared deviations of the rewards from their arithmetic
    mean, and M2 divided by their number is their population variance. *)
Theorem reward_m2_squared_deviations (s0 s : Agent) (cs : list call) :
  started s0 -> run cs s0 = Returned tt s -> rewards cs <> [] ->
  reward_m2 s = squared_deviations (mean (rewards cs)) (rewards cs) /\
  (reward_m2 s / Qclen (rewards cs))%Qc = variance (rewards cs).
Proof.
  intros Hs H Hne.
  pose proof (run_mean s0 s cs Hs H Hne) as Hm.
  destruct (run_started cs s0 s Hs H) as [_ _ _ Hmean Hm2].
  assert (E : reward_m2 s = squared_deviations (mean (rewards cs)) (rewards cs)).
  { rewrite squared_deviations_expand, Hm2, <- Hm, <- Hmean. ring. }
  split; [exact E|]. unfold variance. rewrite E. reflexivity.
Qed.

(** C2, as amended: on an agent just constructed the calls
    percept(obs, 1), action, percept(obs, 2), action, percept(obs, 3),
    action, with a valid action, all return and leave a total reward of 6,
    a mean reward of 2 and an age of 3. *)
Theorem three_rewards (env : Environment.t) (opts : gmap string value)
    (s : Agent) (o a : Z) :
  Agent_init (Some env) opts = inr s ->
  Environment.is_valid_action env a = true ->
  exists s',
    run [ModelUpdatePercept o (Z2Qc 1); ModelUpdateAction a;
         ModelUpdatePercept o (Z2Qc 2); ModelUpdateAction a;
         ModelUpdatePercept o (Z2Qc 3); ModelUpdateAction a] s = Returned tt s' /\
    total_reward s' = Z2Qc 6 /\ mean_reward s' = Z2Qc 2 /\ age s' = 3.
Proof.
  intros Hinit Hval.
  assert (Hs : started s) by (eapply started_init; eassumption).
  assert (Henv : environment s = env).
  { unfold Agent_init in Hinit.
    destruct (int _) as [e|p]; inversion Hinit; reflexivity. }
  destruct (trial_accepted o a [Z2Qc 1; Z2Qc 2; Z2Qc 3] s Hs) as [s' H].
  { rewrite Henv. assumption. }
  exists s'. split; [exact H|].
  pose proof (run_started _ s s' Hs H) as [Hage _ Htot _ _].
  pose proof (run_mean s s' _ Hs H) as Hm.
  change (trial o a [Z2Qc 1; Z2Qc 2; Z2Qc 3]) with
    [ModelUpdatePercept o (Z2Qc 1); ModelUpdateAction a;
     ModelUpdatePercept o (Z2Qc 2); ModelUpdateAction a;
     ModelUpdatePercept o (Z2Qc 3); ModelUpdateAction a] in *.
  split; [|split].
  - rewrite Htot. apply Qc_is_canon. reflexivity.
  - rewrite Hm by discriminate. apply Qc_is_canon. reflexivity.
  - rewrite Hage. reflexivity.
Qed.

(** ** Age *)

(** C7: after any sequence of calls accepted from an agent just
    constructed, or just reset, the age is the number of action updates of
    the sequence; an accepted action update adds exactly 1 to the age and
    sets the last update to the action update, and no other call of a
    sequence changes the age, whether it returns or raises; [reset], which
    starts a new count, sets the age to 0. *)
Theorem age_counts_action_updates (s0 s : Agent) (cs : list call) :
  started s0 -> run cs s0 = Returned tt s ->
  age s = Z.of_nat (action_updates cs) /\
  (forall a s1 s2, model_update_action a s1 = Returned tt s2 ->
     age s2 = age s1 + 1 /\ last_update s2 = action_update) /\
  (forall c s1, (forall a, c <> ModelUpdateAction a) ->
     age (state_after (exec c s1)) = age s1) /\
  (forall s1, age (state_after (reset s1)) = 0).
Proof.
  intros Hs H. split; [|split; [|split]].
  - apply (run_started cs s0 s Hs H).
  - intros a s1 s2. rewrite model_update_action_eq.
    destruct (Environment.is_valid_action (environment s1) a);
      [destruct (update_eqb (last_update s1) percept_update)|];
      intros E; inversion E; subst. split; reflexivity.
  - intros c s1 Hc. destruct c as [ |u| | | |a|o r| ];
      try (rewrite query_state_after by discriminate; reflexivity).
    + exfalso. eapply Hc. reflexivity.
    + simpl. rewrite model_update_percept_eq.
      destruct (update_eqb (last_update s1) action_update);
        [destruct (age s1 + 1 =? 0)|]; reflexivity.
  - intros s1. reflexivity.
Qed.

(** ** Random actions *)

Lemma choice_member (u : Z) (xs : list Z) :
  xs <> [] -> exists a, choice u xs = inr a /\ In a xs.
Proof.
  destruct xs as [|x xs]; [congruence|]. intros _.
  unfold choice. eexists. split; [reflexivity|].
  apply nth_In.
  assert (0 < Z.of_nat (length (x :: xs))) by (simpl; lia).
  pose proof (Z.mod_pos_bound u (Z.of_nat (length (x :: xs))) ltac:(assumption)).
  lia.
Qed.

Lemma randrange_bounds (u lo hi : Z) :
  lo < hi -> exists a, randrange u lo hi = inr a /\ lo <= a < hi.
Proof.
  intros H. unfold randrange.
  destruct (lo <? hi) eqn:E; [|apply Z.ltb_ge in E; lia].
  eexists. split; [reflexivity|].
  pose proof (Z.mod_pos_bound u (hi - lo) ltac:(lia)). lia.
Qed.

(** Every integer of the range is drawn by some state of the generator. *)
Lemma randrange_onto (lo hi a : Z) :
  lo <= a < hi -> exists u, randrange u lo hi = inr a.
Proof.
  intros H. exists (a - lo). unfold randrange.
  destruct (lo <? hi) eqn:E; [|apply Z.ltb_ge in E; lia].
  rewrite Z.mod_small by lia. f_equal. lia.
Qed.

Lemma randrange_empty (u lo hi : Z) : hi <= lo -> randrange u lo hi = inl ValueError.
Proof.
  intros H. unfold randrange.
  destruct (lo <? hi) eqn:E; [apply Z.ltb_lt in E; lia | reflexivity].
Qed.

(** What [generate_random_action] does, case by case: it returns a member
    of the environment's valid actions when the environment lists them and
    the list is not empty; without such a list, when the environment has both
    a minimum and a maximum action and the minimum is below the maximum, it
    returns an integer from the minimum up to, and not including, the
    maximum; when the minimum is not below the maximum it raises
    [ValueError]; and without the list and without one of the two bounds it
    returns [None] and raises nothing.  The agent is never changed. *)
Lemma generate_random_action_cases (u : Z) (s : Agent) :
  (forall xs, Environment.valid_actions (environment s) = Some xs -> xs <> [] ->
     exists a, generate_random_action u s = Returned (Some a) s /\ In a xs) /\
  (forall lo hi,
     Environment.valid_actions (environment s) = None ->
     Environment.minimum_action (environment s) = Some lo ->
     Environment.maximum_action (environment s) = Some hi ->
     (lo < hi ->
        exists a, generate_random_action u s = Returned (Some a) s /\ lo <= a < hi) /\
     (hi <= lo -> generate_random_action u s = Raised ValueError s)) /\
  (Environment.valid_actions (environment s) = None ->
   Environment.minimum_action (environment s) = None \/
   Environment.maximum_action (environment s) = None ->
   generate_random_action u s = Returned None s).
Proof.
  unfold generate_random_action, bind, get, lift, ret, raise.
  split; [|split].
  - intros xs E Hne. rewrite E.
    destruct (choice_member u xs Hne) as (a & Ea & Hin).
    rewrite Ea. eauto.
  - intros lo hi E Elo Ehi. rewrite E, Elo, Ehi. split.
    + intros Hlt. destruct (randrange_bounds u lo hi Hlt) as (a & Ea & Hb).
      rewrite Ea. eauto.
    + intros Hge. rewrite randrange_empty by assumption. reflexivity.
  - intros E [E1|E1]; rewrite E, E1; [reflexivity|].
    destruct (Environment.minimum_action (environment s)); reflexivity.
Qed.

(** * Further properties *)

(** ** Queries in a sequence *)

Lemma query_returned (c : call) (s s' : Agent) :
  (forall a, c <> ModelUpdateAction a) ->
  (forall o r, c <> ModelUpdatePercept o r) ->
  exec c s = Returned tt s' -> s' = s.
Proof.
  intros Ha Hp H. pose proof (query_state_after c s Ha Hp) as E.
  rewrite H in E. exact E.
Qed.

Lemma queries_leave_no_trace_aux (cs : list call) (s s' : Agent) :
  run cs s = Returned tt s' -> run (updates_of cs) s = Returned tt s'.
Proof.
  revert s. induction cs as [|c cs IH]; intros s H; [exact H|].
  cbn [run] in H. unfold bind in H.
  destruct (exec c s) as [[] s1|e s1] eqn:E; [|discriminate].
  destruct c as [ |u| | | |a|o r| ];
    try (apply query_returned in E; [subst s1; apply IH; exact H | discriminate..]).
  - cbn [updates_of run]. unfold bind. rewrite E. apply IH. exact H.
  - cbn [updates_of run]. unfold bind. rewrite E. apply IH. exact H.
Qed.

(** X1: the queries of an accepted sequence do nothing to the agent: the
    updates of the sequence alone are accepted too, and leave the same
    agent. *)
Theorem queries_leave_no_trace (cs : list call) (s s' : Agent) :
  run cs s = Returned tt s' -> run (updates_of cs) s = Returned tt s'.
Proof. apply queries_leave_no_trace_aux. Qed.

(** ** The protocol as a language of sequences *)

Lemma run_alternates (cs : list call) :
  forall s s' : Agent,
    run cs s = Returned tt s' ->
    alternates (update_eqb (last_update s) action_update) cs = true.
Proof.
  induction cs as [|c cs IH]; intros s s' H; [reflexivity|].
  cbn [run] in H. unfold bind in H.
  destruct (exec c s) as [[] s1|e s1] eqn:E; [|discriminate].
  destruct c as [ |u| | | |a|o r| ];
    try (apply query_returned in E; [subst s1; eapply IH; exact H | discriminate..]).
  - simpl in E. rewrite model_update_action_eq in E.
    destruct (Environment.is_valid_action (environment s) a); [|discriminate].
    destruct (last_update s); simpl in E; [discriminate|].
    inversion E; subst; clear E. simpl. apply (IH _ _ H).
  - simpl in E. rewrite model_update_percept_eq in E.
    destruct (last_update s); simpl in E; [|discriminate].
    destruct (age s + 1 =? 0); [discriminate|].
    inversion E; subst; clear E. simpl. apply (IH _ _ H).
Qed.

(** X2: from an agent just constructed or just reset, a sequence of calls
    is accepted only if its updates take turns, a percept update first. *)
Theorem accepted_sequences_alternate (s0 s : Agent) (cs : list call) :
  started s0 -> run cs s0 = Returned tt s -> alternates true cs = true.
Proof.
  intros Hs H. destruct (started_fields s0 Hs) as [_ Hph].
  apply run_alternates in H. rewrite Hph in H. exact H.
Qed.

(** ** Counting the percept updates *)

(** X4: along a sequence accepted from an agent just constructed or just
    reset, the rewards delivered so far are as many as the age says, and one
    more when the last update was a percept update; so the [n = age + 1] of
    [update_reward_statistics] is the number of rewards, the current one
    included. *)
Theorem rewards_counted_by_age (s0 s : Agent) (cs : list call) :
  started s0 -> run cs s0 = Returned tt s ->
  Z.of_nat (length (rewards cs)) =
    age s + (if update_eqb (last_update s) percept_update then 1 else 0).
Proof. intros Hs H. apply (run_started cs s0 s Hs H). Qed.

Lemma run_no_rewards (cs : list call) (s0 s : Agent) :
  started s0 -> run cs s0 = Returned tt s -> rewards cs = [] -> s = s0.
Proof.
  intros Hs H Hr. destruct (started_fields s0 Hs) as [_ Hph].
  apply queries_leave_no_trace_aux in H.
  assert (E : updates_of cs = []).
  { revert H Hr. clear - Hph. induction cs as [|c cs IH]; intros H Hr; [reflexivity|].
    destruct c as [ |u| | | |a|o r| ]; simpl in *; try (apply IH; assumption).
    - exfalso. unfold bind in H. rewrite model_update_action_eq, Hph in H.
      destruct (Environment.is_valid_action (environment s0) a); discriminate.
    - discriminate. }
  rewrite E in H. inversion H. reflexivity.
Qed.

(** X5: in exact arithmetic, after a sequence accepted from an agent just
    constructed or just reset, [average_reward] returns the arithmetic mean
    of the rewards delivered, 0 when there were none, and leaves the agent
    as it is. *)
Theorem average_reward_is_mean (s0 s : Agent) (cs : list call) :
  started s0 -> run cs s0 = Returned tt s ->
  average_reward s =
    Returned (match rewards cs with [] => 0%Qc | _ => mean (rewards cs) end) s.
Proof.
  intros Hs H. unfold average_reward, bind, get, ret.
  destruct (rewards cs) as [|r rs] eqn:E.
  - rewrite (run_no_rewards cs s0 s Hs H E).
    destruct Hs as [env opts s1 Hi | s1 s2 Hi].
    + unfold Agent_init in Hi.
      destruct (int _) as [e|p]; inversion Hi; reflexivity.
    + rewrite reset_eq in Hi. inversion Hi; reflexivity.
  - rewrite <- E. rewrite (run_mean s0 s cs Hs H); [reflexivity|].
    rewrite E. discriminate.
Qed.

(** ** Order on the statistics *)

Lemma Qcsquare_nonneg (x : Qc) : (0 <= x * x)%Qc.
Proof.
  unfold Qcle, Qcmult, Q2Qc. cbn [this]. rewrite !Qred_correct.
  unfold Qle, Qmult. simpl. nia.
Qed.

Lemma Qcplus_nonneg (x y : Qc) : (0 <= x)%Qc -> (0 <= y)%Qc -> (0 <= x + y)%Qc.
Proof.
  intros Hx Hy. rewrite <- (Qcplus_0_l 0). apply Qcplus_le_compat; assumption.
Qed.



Lemma Z2Qc_pos (n : Z) : 0 < n -> (0 < Z2Qc n)%Qc.
Proof.
  intros H. unfold Qclt, Z2Qc, Q2Qc. cbn [this]. rewrite !Qred_correct.
  unfold Qlt. simpl. lia.
Qed.

Lemma Qclen_pos (rs : list Qc) : rs <> [] -> (0 < Qclen rs)%Qc.
Proof.
  intros H. apply Z2Qc_pos. destruct rs; [congruence | simpl; lia].
Qed.

Lemma squared_deviations_nonneg (m : Qc) (rs : list Qc) :
  (0 <= squared_deviations m rs)%Qc.
Proof.
  induction rs as [|r rs IH]; simpl; [apply Qcle_refl|].
  apply Qcplus_nonneg; [apply Qcsquare_nonneg | exact IH].
Qed.

Lemma run_m2 (s0 s : Agent) (cs : list call) :
  started s0 -> run cs s0 = Returned tt s -> rewards cs <> [] ->
  reward_m2 s = squared_deviations (mean (rewards cs)) (rewards cs).
Proof.
  intros Hs H Hne.
  pose proof (run_mean s0 s cs Hs H Hne) as Hm.
  destruct (run_started cs s0 s Hs H) as [_ _ _ Hmean Hm2].
  rewrite squared_deviations_expand, Hm2, <- Hm, <- Hmean. ring.
Qed.

(** X6: in exact arithmetic, after any sequence accepted from an agent just
    constructed or just reset, M2 is not negative. *)
Theorem reward_m2_nonneg (s0 s : Agent) (cs : list call) :
  started s0 -> run cs s0 = Returned tt s -> (0 <= reward_m2 s)%Qc.
Proof.
  intros Hs H. destruct (rewards cs) as [|r rs] eqn:E.
  - destruct (run_started cs s0 s Hs H) as [_ _ _ _ Hm2].
    rewrite Hm2, E. simpl.
    replace (0 - mean_reward s * 0)%Qc with 0%Qc by ring. apply Qcle_refl.
  - rewrite (run_m2 s0 s cs Hs H) by (rewrite E; discriminate).
    apply squared_deviations_nonneg.
Qed.

Lemma Qcsum_lower (lo : Qc) (rs : list Qc) :
  (forall r, In r rs -> (lo <= r)%Qc) -> (lo * Qclen rs <= Qcsum rs)%Qc.
Proof.
  induction rs as [|r rs IH]; intros H.
  - unfold Qclen. simpl. change (Z.of_nat 0) with 0. rewrite Z2Qc_0.
    rewrite Qcmult_0_r. apply Qcle_refl.
  - rewrite Qclen_cons. simpl.
    replace (lo * (1 + Qclen rs))%Qc with (lo + lo * Qclen rs)%Qc by ring.
    apply Qcplus_le_compat; [apply H; left; reflexivity|].
    apply IH. intros r' Hr'. apply H. right. exact Hr'.
Qed.

Lemma Qcsum_upper (hi : Qc) (rs : list Qc) :
  (forall r, In r rs -> (r <= hi)%Qc) -> (Qcsum rs <= hi * Qclen rs)%Qc.
Proof.
  induction rs as [|r rs IH]; intros H.
  - unfold Qclen. simpl. change (Z.of_nat 0) with 0. rewrite Z2Qc_0.
    rewrite Qcmult_0_r. apply Qcle_refl.
  - rewrite Qclen_cons. simpl.
    replace (hi * (1 + Qclen rs))%Qc with (hi + hi * Qclen rs)%Qc by ring.
    apply Qcplus_le_compat; [apply H; left; reflexivity|].
    apply IH. intros r' Hr'. apply H. right. exact Hr'.
Qed.

(** X7: in exact arithmetic, when every reward delivered by a sequence
    accepted from an agent just constructed or just reset lies between two
    bounds, so does the mean reward, and with it what [average_reward]
    returns. *)
Theorem mean_reward_bounded (s0 s : Agent) (cs : list call) (lo hi : Qc) :
  started s0 -> run cs s0 = Returned tt s -> rewards cs <> [] ->
  (forall r, In r (rewards cs) -> (lo <= r)%Qc /\ (r <= hi)%Qc) ->
  (lo <= mean_reward s)%Qc /\ (mean_reward s <= hi)%Qc /\
  average_reward s = Returned (mean_reward s) s.
Proof.
  intros Hs H Hne Hb.
  destruct (run_started cs s0 s Hs H) as [_ _ _ Hmean _].
  pose proof (Qclen_pos _ Hne) as Hpos.
  split; [|split; [|reflexivity]].
  - apply (Qcmult_lt_0_le_reg_r _ _ _ Hpos). rewrite Hmean.
    apply Qcsum_lower. intros r Hr. apply (Hb r Hr).
  - apply (Qcmult_lt_0_le_reg_r _ _ _ Hpos). rewrite Hmean.
    apply Qcsum_upper. intros r Hr. apply (Hb r Hr).
Qed.

(** ** One update of the statistics *)


(** ** The order of the rewards *)

Lemma Qcsum_Permutation (xs ys : list Qc) :
  Permutation xs ys -> Qcsum xs = Qcsum ys.
Proof.
  induction 1 as [|x xs ys _ IH|x y xs|xs ys zs _ IH1 _ IH2]; simpl.
  - reflexivity.
  - rewrite IH. reflexivity.
  - ring.
  - rewrite IH1. exact IH2.
Qed.

Lemma Qcsumsq_Permutation (xs ys : list Qc) :
  Permutation xs ys -> Qcsumsq xs = Qcsumsq ys.
Proof.
  induction 1 as [|x xs ys _ IH|x y xs|xs ys zs _ IH1 _ IH2]; simpl.
  - reflexivity.
  - rewrite IH. reflexivity.
  - ring.
  - rewrite IH1. exact IH2.
Qed.

Lemma started_statistics (s : Agent) :
  started s ->
  mean_reward s = 0%Qc /\ reward_m2 s = 0%Qc /\ total_reward s = 0%Qc.
Proof.
  intros [env opts s0 H | s0 s1 H].
  - unfold Agent_init in H.
    destruct (int _) as [e|p]; inversion H; subst; clear H. repeat split.
  - rewrite reset_eq in H. inversion H; subst; clear H. repeat split.
Qed.

Lemma run_statistics (s0 s : Agent) (cs : list call) :
  started s0 -> run cs s0 = Returned tt s ->
  total_reward s = Qcsum (rewards cs) /\
  mean_reward s = (match rewards cs with [] => 0 | _ => mean (rewards cs) end)%Qc /\
  reward_m2 s = (Qcsumsq (rewards cs) - mean_reward s * Qcsum (rewards cs))%Qc.
Proof.
  intros Hs H. destruct (run_started cs s0 s Hs H) as [_ _ Htot _ Hm2].
  split; [exact Htot|]. split; [|exact Hm2].
  destruct (rewards cs) as [|r rs] eqn:E.
  - rewrite (run_no_rewards cs s0 s Hs H E). apply (started_statistics s0 Hs).
  - rewrite <- E. apply (run_mean s0 s cs Hs H). rewrite E. discriminate.
Qed.

(** X9: in exact arithmetic, the statistics do not depend on the order in
    which the rewards arrive: two accepted sequences, each from an agent just constructed or
    just reset, that deliver the same rewards in any order leave the same
    total reward, mean reward and M2. *)
Theorem statistics_order_independent (s1 s2 t1 t2 : Agent) (cs1 cs2 : list call) :
  started s1 -> started s2 ->
  run cs1 s1 = Returned tt t1 -> run cs2 s2 = Returned tt t2 ->
  Permutation (rewards cs1) (rewards cs2) ->
  total_reward t1 = total_reward t2 /\
  mean_reward t1 = mean_reward t2 /\
  reward_m2 t1 = reward_m2 t2.
Proof.
  intros Hs1 Hs2 H1 H2 Hp.
  destruct (run_statistics s1 t1 cs1 Hs1 H1) as (Ht1 & Hm1 & Hq1).
  destruct (run_statistics s2 t2 cs2 Hs2 H2) as (Ht2 & Hm2 & Hq2).
  pose proof (Qcsum_Permutation _ _ Hp) as Es.
  pose proof (Qcsumsq_Permutation _ _ Hp) as Eq.
  pose proof (Permutation_length Hp) as El.
  assert (Em : mean_reward t1 = mean_reward t2).
  { rewrite Hm1, Hm2.
    destruct (rewards cs1) as [|x xs] eqn:E1; destruct (rewards cs2) as [|y ys] eqn:E2;
      try discriminate El; [reflexivity|].
    unfold mean, Qclen. rewrite Es, El. reflexivity. }
  split; [rewrite Ht1, Ht2; exact Es|]. split; [exact Em|].
  rewrite Hq1, Hq2, Em, Es, Eq. reflexivity.
Qed.

(** ** Configuration *)

Lemma evolves_configuration (s0 s : Agent) :
  evolves s0 s ->
  environment s = environment s0 /\ options s = options s0 /\
  learning_period s = learning_period s0.
Proof.
  induction 1 as [|c s _ IH|s _ IH|r s _ IH].
  - repeat split.
  - destruct c as [ |u| | | |a|o r| ];
      try (rewrite query_state_after by discriminate; exact IH).
    + simpl. rewrite model_update_action_eq.
      destruct (Environment.is_valid_action (environment s) a);
        [destruct (update_eqb (last_update s) percept_update)|]; exact IH.
    + simpl. rewrite model_update_percept_eq.
      destruct (update_eqb (last_update s) action_update);
        [destruct (age s + 1 =? 0)|]; exact IH.
  - rewrite reset_eq. exact IH.
  - rewrite update_reward_statistics_eq.
    destruct (age s + 1 =? 0); exact IH.
Qed.

(** X10: no method changes the environment, the options or the learning
    period: whatever calls were made on a constructed agent, [reset] among
    them, and whether they returned or raised, the three are as the
    constructor set them. *)
Theorem configuration_never_changes (env : Environment.t)
    (opts : gmap string value) (s0 s : Agent) :
  Agent_init (Some env) opts = inr s0 -> evolves s0 s ->
  environment s = env /\ options s = opts /\
  learning_period s = learning_period s0.
Proof.
  intros Hi He. destruct (evolves_configuration s0 s He) as (E1 & E2 & E3).
  rewrite E1, E2, E3.
  unfold Agent_init in Hi.
  destruct (int _) as [e|p]; inversion Hi; subst; clear Hi. simpl.
  repeat split.
Qed.

(** X11: no method reads the options or the learning period of the agent:
    with other options and another learning period every method returns or
    raises the same, and does the same to the rest of the agent. *)
Theorem configuration_not_consulted (opts : gmap string value) (period : Z) (s : Agent) :
  let c := configure opts period in
  average_reward (c s) = outcome_map c (average_reward s) /\
  (forall u, generate_random_action u (c s) = outcome_map c (generate_random_action u s)) /\
  maximum_action (c s) = outcome_map c (maximum_action s) /\
  maximum_reward (c s) = outcome_map c (maximum_reward s) /\
  model_size (c s) = outcome_map c (model_size s) /\
  (forall a, model_update_action a (c s) = outcome_map c (model_update_action a s)) /\
  (forall o r, model_update_percept o r (c s) = outcome_map c (model_update_percept o r s)) /\
  search (c s) = outcome_map c (search s) /\
  (forall r, update_reward_statistics r (c s) =
             outcome_map c (update_reward_statistics r s)).
Proof.
  intros c. subst c. repeat split.
  - intros u.
    unfold generate_random_action, bind, get, lift, ret, raise. simpl.
    destruct (Environment.valid_actions (environment s)) as [xs|].
    + destruct (choice u xs); reflexivity.
    + destruct (Environment.minimum_action (environment s)) as [lo|]; [|reflexivity].
      destruct (Environment.maximum_action (environment s)) as [hi|]; [|reflexivity].
      destruct (randrange u lo hi); reflexivity.
  - unfold maximum_action, bind, get, ret, raise. simpl.
    destruct (Environment.maximum_action (environment s)); reflexivity.
  - unfold maximum_reward, bind, get, ret, raise. simpl.
    destruct (Environment.maximum_reward (environment s)); reflexivity.
  - intros a. rewrite !model_update_action_eq. simpl.
    destruct (Environment.is_valid_action (environment s) a);
      [destruct (update_eqb (last_update s) percept_update)|]; reflexivity.
  - intros o r. rewrite !model_update_percept_eq. simpl.
    destruct (update_eqb (last_update s) action_update);
      [destruct (age s + 1 =? 0)|]; reflexivity.
  - unfold search, maximum_action, bind, get, ret, raise. simpl.
    destruct (Environment.maximum_action (environment s)); reflexivity.
  - intros r. rewrite !update_reward_statistics_eq. simpl.
    destruct (age s + 1 =? 0); reflexivity.
Qed.

(** ** Search and random actions *)


(** ** Rewards and the maximum reward *)

Lemma evolves_trans (s0 s1 s2 : Agent) :
  evolves s0 s1 -> evolves s1 s2 -> evolves s0 s2.
Proof.
  intros H1 H2. induction H2 as [|c s _ IH|s _ IH|r s _ IH].
  - exact H1.
  - apply evolves_exec. exact IH.
  - apply evolves_reset. exact IH.
  - apply evolves_statistics. exact IH.
Qed.

Lemma run_evolves (cs : list call) :
  forall s s' : Agent, run cs s = Returned tt s' -> evolves s s'.
Proof.
  induction cs as [|c cs IH]; intros s s' H.
  - inversion H. apply evolves_refl.
  - cbn [run] in H. unfold bind in H.
    destruct (exec c s) as [[] s1|e s1] eqn:E; [|discriminate].
    apply (evolves_trans s s1 s'); [|apply IH; exact H].
    replace s1 with (state_after (exec c s)) by (rewrite E; reflexivity).
    apply evolves_exec, evolves_refl.
Qed.

(** X13: in exact arithmetic, when the environment has a maximum reward
    that no reward delivered by a sequence accepted from an agent just constructed or just reset
    exceeds, [maximum_reward] returns that bound after the sequence, the
    total reward is at most the bound times the number of rewards, and the
    mean reward is at most the bound. *)
Theorem rewards_within_maximum_reward (s0 s : Agent) (cs : list call) (b : Qc) :
  started s0 -> run cs s0 = Returned tt s ->
  Environment.maximum_reward (environment s0) = Some b ->
  (forall r, In r (rewards cs) -> (r <= b)%Qc) ->
  maximum_reward s = Returned (Some b) s /\
  (total_reward s <= b * Qclen (rewards cs))%Qc /\
  (rewards cs <> [] -> (mean_reward s <= b)%Qc).
Proof.
  intros Hs H Hmax Hb.
  destruct (run_started cs s0 s Hs H) as [_ _ Htot Hmean _].
  destruct (evolves_configuration s0 s (run_evolves cs s0 s H)) as (Eenv & _ & _).
  pose proof (Qcsum_upper b (rewards cs) Hb) as Hu. split; [|split].
  - unfold maximum_reward, bind, get, ret. rewrite Eenv, Hmax. reflexivity.
  - rewrite Htot. exact Hu.
  - intros Hne. apply (Qcmult_lt_0_le_reg_r _ _ _ (Qclen_pos _ Hne)).
    rewrite Hmean. exact Hu.
Qed.

(** ** Constant rewards *)

Lemma Qcsum_nonneg_zero (a b : Qc) :
  (0 <= a)%Qc -> (0 <= b)%Qc -> (a + b)%Qc = 0%Qc -> a = 0%Qc /\ b = 0%Qc.
Proof.
  intros Ha Hb E.
  assert (Ea : a = 0%Qc).
  { apply Qcle_antisym; [|exact Ha].
    replace a with (- b)%Qc by (rewrite <- (Qcplus_0_l (- b)), <- E; ring).
    replace 0%Qc with (- 0)%Qc by ring. apply Qcopp_le_compat. exact Hb. }
  split; [exact Ea|]. rewrite Ea in E. rewrite <- E. ring.
Qed.

Lemma squared_deviations_zero (m : Qc) (rs : list Qc) :
  squared_deviations m rs = 0%Qc <-> (forall r, In r rs -> r = m).
Proof.
  induction rs as [|r rs IH]; simpl.
  - split; [intros _ r [] | reflexivity].
  - split.
    + intros E.
      destruct (Qcsum_nonneg_zero _ _ (Qcsquare_nonneg (r - m))
                  (squared_deviations_nonneg m rs) E) as [E1 E2].
      intros r' [<-|Hin]; [|apply IH; assumption].
      destruct (Qcmult_integral _ _ E1) as [E0|E0];
        rewrite <- (Qcplus_0_l m), <- E0; ring.
    + intros H.
      rewrite (H r (or_introl eq_refl)).
      replace (squared_deviations m rs) with 0%Qc; [ring|].
      symmetry. apply IH. intros r' Hin. apply H. right. exact Hin.
Qed.

(** X14: in exact arithmetic, after a sequence accepted from an agent just
    constructed or just reset, M2 is 0 exactly when all the rewards delivered are equal, that
    is, equal to the mean reward. *)
Theorem reward_m2_zero_iff_constant (s0 s : Agent) (cs : list call) :
  started s0 -> run cs s0 = Returned tt s ->
  reward_m2 s = 0%Qc <-> (forall r, In r (rewards cs) -> r = mean_reward s).
Proof.
  intros Hs H. destruct (rewards cs) as [|r0 rs] eqn:E.
  - destruct (run_statistics s0 s cs Hs H) as (_ & _ & Hm2).
    rewrite E in Hm2. simpl in Hm2. split; [intros _ r [] | intros _].
    rewrite Hm2. ring.
  - assert (Hne : rewards cs <> []) by (rewrite E; discriminate).
    rewrite (run_m2 s0 s cs Hs H Hne), (run_mean s0 s cs Hs H Hne), <- E.
    apply squared_deviations_zero.
Qed.

End Agent.

(** * The agent over Python's numbers: properties *)

Section PyProperties.

Context {object : Type}.
Variable int_object : object -> exn + Z.
Variable N : Py.arithmetic.

Local Abbreviation PyAgent := (@Py.Agent object N).

Lemma py_model_update_action_eq (a : Z) (s : PyAgent) :
  Py.model_update_action N a s =
    if Environment.is_valid_action (Py.environment N s) a then
      if update_eqb (Py.last_update N s) percept_update then
        Returned tt
          (Py.set_last_update N action_update (Py.set_age N (Py.age N s + 1) s))
      else Raised (AssertionError ActionAfterPercept) s
    else Raised (AssertionError (InvalidAction a)) s.
Proof.
  unfold Py.model_update_action, bind, get, assert, modify, ret, raise.
  destruct (Environment.is_valid_action (Py.environment N s) a); [|reflexivity].
  destruct (update_eqb (Py.last_update N s) percept_update); reflexivity.
Qed.

Lemma py_model_update_percept_eq (o : Z) (r : Py.number N) (s : PyAgent) :
  Py.model_update_percept N o r s =
    if update_eqb (Py.last_update N s) action_update then
      match Py.update_reward_statistics N r s with
      | Returned _ s' => Returned tt (Py.set_last_update N percept_update s')
      | Raised e s' => Raised e s'
      end
    else Raised (AssertionError PerceptAfterAction) s.
Proof.
  unfold Py.model_update_percept, bind at 1 2, get, assert.
  destruct (update_eqb (Py.last_update N s) action_update); [|reflexivity].
  unfold ret, bind, modify.
  destruct (Py.update_reward_statistics N r s) as [[] s'|e s']; reflexivity.
Qed.

(** What [update_reward_statistics] leaves alone, however it ends: it
    assigns the three statistics, in the order mean reward, M2, total
    reward, and the total reward last of all. *)
Lemma py_update_reward_statistics_frame (r : Py.number N) (s : PyAgent) :
  let s' := state_after (Py.update_reward_statistics N r s) in
  Py.age N s' = Py.age N s /\
  Py.last_update N s' = Py.last_update N s /\
  Py.environment N s' = Py.environment N s /\
  Py.options N s' = Py.options N s /\
  Py.learning_period N s' = Py.learning_period N s.
Proof.
  unfold Py.update_reward_statistics, bind, get, lift, modify, ret, raise.
  repeat match goal with
         | |- context [match ?x with inl _ => _ | inr _ => _ end] =>
             destruct x; cbn
         end; repeat split.
Qed.

Lemma py_update_reward_statistics_raised (r : Py.number N) (s s' : PyAgent) (e : exn) :
  Py.update_reward_statistics N r s = Raised e s' ->
  Py.total_reward N s' = Py.total_reward N s.
Proof.
  unfold Py.update_reward_statistics, bind, get, lift, modify, ret, raise.
  repeat match goal with
         | |- context [match ?x with inl _ => _ | inr _ => _ end] =>
             destruct x; cbn
         end; intros H; inversion H; reflexivity.
Qed.

Lemma py_update_reward_statistics_error (r : Py.number N) (s s' : PyAgent) (e : exn) :
  Py.raises_no_assertion N ->
  Py.update_reward_statistics N r s = Raised e s' ->
  error_kind_of e = None.
Proof.
  intros (Hsub & Hadd & Hmul & Hdiv).
  unfold Py.update_reward_statistics, bind, get, lift, modify, ret, raise.
  repeat match goal with
         | |- context [match ?x with inl _ => _ | inr _ => _ end] =>
             let E := fresh "E" in destruct x eqn:E; cbn
         end; intros H; inversion H; subst;
    first [ eapply Hsub; eassumption | eapply Hadd; eassumption
          | eapply Hmul; eassumption | eapply Hdiv; eassumption ].
Qed.

(** C1, as amended: on an agent just constructed the first percept update
    passes the check of the phase: it does not fail with the protocol
    assertion (ProtocolError), and when it returns the agent is in the phase
    after a percept update; it is a first action update, with a valid
    action, that raises the protocol assertion and changes nothing. *)
Theorem first_call_of_fresh_agent (env : Environment.t)
    (opts : gmap string Py.value) (s : PyAgent) :
  Py.raises_no_assertion N ->
  Py.Agent_init int_object N (Some env) opts = inr s ->
  (forall o r e s', Py.model_update_percept N o r s = Raised e s' ->
     error_kind_of e <> Some ProtocolError) /\
  (forall o r s', Py.model_update_percept N o r s = Returned tt s' ->
     Py.last_update N s' = percept_update) /\
  (forall a, Environment.is_valid_action env a = true ->
     exists e, Py.model_update_action N a s = Raised e s /\
               error_kind_of e = Some ProtocolError).
Proof.
  intros HN H. unfold Py.Agent_init in H.
  destruct (Py.int _ _) as [e|p]; inversion H; subst; clear H.
  split; [|split].
  - intros o r e s'. rewrite py_model_update_percept_eq. cbn [Py.last_update update_eqb].
    destruct (Py.update_reward_statistics N r _) as [[] s1|e1 s1] eqn:E;
      intros H; inversion H; subst.
    rewrite (py_update_reward_statistics_error _ _ _ _ HN E). discriminate.
  - intros o r s'. rewrite py_model_update_percept_eq. cbn [Py.last_update update_eqb].
    destruct (Py.update_reward_statistics N r _) as [[] s1|e1 s1];
      intros H; inversion H; reflexivity.
  - intros a Ha. rewrite py_model_update_action_eq. simpl. rewrite Ha.
    eexists. split; reflexivity.
Qed.


(** C6, as amended: an action that the environment does not hold valid
    makes [model_update_action] raise the invalid-action assertion
    (InvalidActionError), in any state of the agent; a call of
    [model_update_action] that raises, and a call of
    [model_update_percept] that fails the check of the phase, leave the
    agent as it was; and a call of [model_update_percept] that raises
    later, in the arithmetic of the statistics, leaves age, last update and
    total reward as they were. *)
Theorem failed_update_changes_nothing (s : PyAgent) :
  (forall a, Environment.is_valid_action (Py.environment N s) a = false ->
     exists e, Py.model_update_action N a s = Raised e s /\
               error_kind_of e = Some InvalidActionError) /\
  (forall a e s', Py.model_update_action N a s = Raised e s' -> s' = s) /\
  (forall o r, Py.last_update N s = percept_update ->
     exists e, Py.model_update_percept N o r s = Raised e s /\
               error_kind_of e = Some ProtocolError) /\
  (Py.raises_no_assertion N ->
   forall o r e s', Py.model_update_percept N o r s = Raised e s' ->
     error_kind_of e = Some ProtocolError -> s' = s) /\
  (forall o r e s', Py.model_update_percept N o r s = Raised e s' ->
     Py.age N s' = Py.age N s /\ Py.last_update N s' = Py.last_update N s /\
     Py.total_reward N s' = Py.total_reward N s).
Proof.
  split; [|split; [|split; [|split]]].
  - intros a Ha. rewrite py_model_update_action_eq, Ha.
    eexists. split; reflexivity.
  - intros a e s'. rewrite py_model_update_action_eq.
    destruct (Environment.is_valid_action (Py.environment N s) a);
      [destruct (update_eqb (Py.last_update N s) percept_update)|];
      intros H; inversion H; reflexivity.
  - intros o r E. rewrite py_model_update_percept_eq, E.
    eexists. split; reflexivity.
  - intros HN o r e s'. rewrite py_model_update_percept_eq.
    destruct (update_eqb (Py.last_update N s) action_update);
      [|intros H; inversion H; reflexivity].
    destruct (Py.update_reward_statistics N r s) as [[] s1|e1 s1] eqn:E;
      intros H; inversion H; subst.
    rewrite (py_update_reward_statistics_error _ _ _ _ HN E). discriminate.
  - intros o r e s'. rewrite py_model_update_percept_eq.
    destruct (update_eqb (Py.last_update N s) action_update);
      [|intros H; inversion H; repeat split].
    pose proof (py_update_reward_statistics_frame r s) as F.
    destruct (Py.update_reward_statistics N r s) as [[] s1|e1 s1] eqn:E;
      intros H; inversion H; subst.
    simpl in F. destruct F as (Fa & Fl & _).
    repeat split; try assumption.
    apply (py_update_reward_statistics_raised _ _ _ _ E).
Qed.

(** X3: a percept update raises the protocol assertion, and changes
    nothing, exactly when the last update was a percept update; otherwise
    it returns, in the phase after a percept update, or raises what the
    arithmetic of the statistics raises, which is no assertion.  An action
    update returns exactly when the action is valid and the last update was
    a percept update; what it raises otherwise is the assertion of the
    failed check, the validity of the action being checked first. *)
Theorem update_acceptance (s : PyAgent) :
  (forall o r, Py.last_update N s = percept_update ->
     Py.model_update_percept N o r s = Raised (AssertionError PerceptAfterAction) s) /\
  (forall o r s', Py.model_update_percept N o r s = Returned tt s' ->
     Py.last_update N s = action_update /\ Py.last_update N s' = percept_update) /\
  (Py.raises_no_assertion N ->
   forall o r e s', Py.last_update N s = action_update ->
     Py.model_update_percept N o r s = Raised e s' -> error_kind_of e = None) /\
  (forall a,
     (exists s', Py.model_update_action N a s = Returned tt s') <->
     Environment.is_valid_action (Py.environment N s) a = true /\
     Py.last_update N s = percept_update) /\
  (forall a e s', Py.model_update_action N a s = Raised e s' ->
     e = AssertionError
           (if Environment.is_valid_action (Py.environment N s) a
            then ActionAfterPercept else InvalidAction a)).
Proof.
  split; [|split; [|split; [|split]]].
  - intros o r E. rewrite py_model_update_percept_eq, E. reflexivity.
  - intros o r s'. rewrite py_model_update_percept_eq.
    destruct (Py.last_update N s); simpl; [|discriminate].
    destruct (Py.update_reward_statistics N r s) as [[] s1|e1 s1];
      intros H; inversion H; split; reflexivity.
  - intros HN o r e s' E. rewrite py_model_update_percept_eq, E. simpl.
    destruct (Py.update_reward_statistics N r s) as [[] s1|e1 s1] eqn:E1;
      intros H; inversion H; subst.
    apply (py_update_reward_statistics_error _ _ _ _ HN E1).
  - intros a. rewrite py_model_update_action_eq.
    destruct (Environment.is_valid_action (Py.environment N s) a);
      destruct (Py.last_update N s); simpl; split;
      try (intros [s' H]; discriminate H);
      try (intros [H1 H2]; discriminate);
      eauto.
  - intros a e s'. rewrite py_model_update_action_eq.
    destruct (Environment.is_valid_action (Py.environment N s) a);
      [destruct (update_eqb (Py.last_update N s) percept_update)|];
      intros H; inversion H; reflexivity.
Qed.

End PyProperties.

(** * The theorems at sample agents *)

Local Abbreviation fresh := (@new_agent Empty_set two_actions).
Local Abbreviation rewards123 := [Z2Qc 1; Z2Qc 2; Z2Qc 3].

Lemma fresh_started : started no_objects fresh.
Proof. apply (started_init no_objects two_actions ∅). apply Agent_init_new. Qed.

(** C1, as stated, fails: the first percept update on the agent
    [Agent(two_actions, {})] raises nothing, and it changes the agent. *)
Lemma first_percept_update_accepted :
  Agent_init no_objects (Some two_actions) ∅ = inr fresh /\
  ~ (exists e s', model_update_percept 0 (Z2Qc 1) fresh = Raised e s') /\
  last_update (state_after (model_update_percept 0 (Z2Qc 1) fresh)) = percept_update /\
  last_update fresh = action_update.
Proof.
  split; [apply Agent_init_new|]. split; [|split; reflexivity].
  intros (e & s' & H). rewrite model_update_percept_eq in H. discriminate H.
Qed.

(** C2, as stated, fails: on the agent [Agent(two_actions, {})] the
    sequence that starts with an action update stops at its first call,
    which raises the protocol assertion. *)
Lemma action_first_rejected :
  Agent_init no_objects (Some two_actions) ∅ = inr fresh /\
  Environment.is_valid_action two_actions 0 = true /\
  run [ModelUpdateAction 0; ModelUpdatePercept 0 (Z2Qc 1);
       ModelUpdateAction 0; ModelUpdatePercept 0 (Z2Qc 2);
       ModelUpdateAction 0; ModelUpdatePercept 0 (Z2Qc 3)] fresh =
    Raised (AssertionError ActionAfterPercept) fresh.
Proof. split; [apply Agent_init_new|]. split; reflexivity. Qed.

Lemma three_rewards_witness :
  Agent_init no_objects (Some two_actions) ∅ = inr fresh /\
  Environment.is_valid_action two_actions 0 = true /\
  exists s',
    run [ModelUpdatePercept 7 (Z2Qc 1); ModelUpdateAction 0;
         ModelUpdatePercept 7 (Z2Qc 2); ModelUpdateAction 0;
         ModelUpdatePercept 7 (Z2Qc 3); ModelUpdateAction 0] fresh = Returned tt s' /\
    total_reward s' = Z2Qc 6 /\ mean_reward s' = Z2Qc 2 /\ age s' = 3.
Proof.
  split; [apply Agent_init_new|]. split; [reflexivity|].
  apply (three_rewards no_objects two_actions ∅ fresh 7 0 (Agent_init_new _ _)).
  reflexivity.
Defined.

Lemma mean_and_total_reward_witness :
  let cs := trial 7 0 rewards123 in
  let s := state_after (run cs fresh) in
  started no_objects fresh /\ run cs fresh = Returned tt s /\
  total_reward s = Qcsum rewards123 /\
  (rewards123 <> [] -> mean_reward s = mean rewards123).
Proof.
  intros cs s. split; [exact fresh_started|]. split; [vm_compute; reflexivity|].
  exact (mean_and_total_reward no_objects fresh s cs fresh_started ltac:(vm_compute; reflexivity)).
Defined.

Lemma reward_m2_squared_deviations_witness :
  let cs := trial 7 0 rewards123 in
  let s := state_after (run cs fresh) in
  started no_objects fresh /\ run cs fresh = Returned tt s /\ rewards cs <> [] /\
  reward_m2 s = squared_deviations (mean rewards123) rewards123 /\
  (reward_m2 s / Qclen rewards123)%Qc = variance rewards123.
Proof.
  intros cs s. split; [exact fresh_started|]. split; [vm_compute; reflexivity|].
  split; [discriminate|].
  apply (reward_m2_squared_deviations no_objects fresh s cs fresh_started ltac:(vm_compute; reflexivity)).
  discriminate.
Defined.

Lemma age_counts_action_updates_witness :
  let cs := trial 7 0 rewards123 in
  let s := state_after (run cs fresh) in
  started no_objects fresh /\ run cs fresh = Returned tt s /\ age s = 3.
Proof.
  intros cs s. split; [exact fresh_started|]. split; [vm_compute; reflexivity|].
  exact (proj1 (age_counts_action_updates no_objects fresh s cs fresh_started
                  ltac:(vm_compute; reflexivity))).
Defined.

Lemma construction_of_agent_witness :
  sample_options !! "learning-period"%string = Some (VInt (object:=Empty_set) 5) /\
  exists s, Agent_init no_objects (Some two_actions) sample_options = inr s /\
            age s = 0 /\ last_update s = action_update /\
            options s = sample_options /\ learning_period s = 5.
Proof.
  split; [reflexivity|].
  destruct (construction_of_agent no_objects two_actions sample_options)
    as (_ & _ & Hz & _).
  destruct (Hz 5 eq_refl) as (s & H & Ha & Hl & _ & _ & _ & _ & Ho & Hp).
  exists s. repeat split; assumption.
Defined.

(** C10: on an agent whose environment has the single action 0, with
    minimum and maximum action both 0 and no list of valid actions,
    [generate_random_action] returns no action: [random.randrange(0, 0)]
    raises [ValueError]. *)
Lemma random_action_empty_range (u : Z) :
  Environment.is_valid_action single_action 0 = true /\
  Environment.valid_actions single_action = None /\
  Environment.minimum_action single_action = Some 0 /\
  Environment.maximum_action single_action = Some 0 /\
  generate_random_action u (@new_agent Empty_set single_action) =
    Raised ValueError (new_agent single_action).
Proof. repeat split. Qed.

(** * The further properties at sample agents *)

Local Abbreviation trial123 := (trial 7 0 rewards123).
Local Abbreviation after123 := (state_after (run trial123 fresh)).

Lemma run_trial123 : run trial123 fresh = Returned tt after123.
Proof. vm_compute. reflexivity. Qed.

Lemma queries_leave_no_trace_witness :
  let cs := [AverageReward; ModelUpdatePercept 7 (Z2Qc 1); Search;
             ModelUpdateAction 0] in
  let s := state_after (run cs fresh) in
  run cs fresh = Returned tt s /\
  run [ModelUpdatePercept 7 (Z2Qc 1); ModelUpdateAction 0] fresh = Returned tt s.
Proof.
  intros cs s. split; [vm_compute; reflexivity|].
  apply (queries_leave_no_trace cs fresh s). vm_compute. reflexivity.
Defined.

Lemma accepted_sequences_alternate_witness :
  started no_objects fresh /\ run trial123 fresh = Returned tt after123 /\
  alternates true trial123 = true.
Proof.
  split; [exact fresh_started|]. split; [exact run_trial123|].
  apply (accepted_sequences_alternate no_objects fresh after123 trial123
           fresh_started run_trial123).
Defined.

Lemma rewards_counted_by_age_witness :
  started no_objects fresh /\ run trial123 fresh = Returned tt after123 /\
  Z.of_nat (length (rewards trial123)) =
    age after123 +
    (if update_eqb (last_update after123) percept_update then 1 else 0).
Proof.
  split; [exact fresh_started|]. split; [exact run_trial123|].
  apply (rewards_counted_by_age no_objects fresh after123 trial123
           fresh_started run_trial123).
Defined.

Lemma average_reward_is_mean_witness :
  started no_objects fresh /\ run trial123 fresh = Returned tt after123 /\
  average_reward after123 = Returned (mean rewards123) after123.
Proof.
  split; [exact fresh_started|]. split; [exact run_trial123|].
  apply (average_reward_is_mean no_objects fresh after123 trial123
           fresh_started run_trial123).
Defined.

Lemma reward_m2_nonneg_witness :
  started no_objects fresh /\ run trial123 fresh = Returned tt after123 /\
  (0 <= reward_m2 after123)%Qc.
Proof.
  split; [exact fresh_started|]. split; [exact run_trial123|].
  apply (reward_m2_nonneg no_objects fresh after123 trial123
           fresh_started run_trial123).
Defined.

Lemma rewards123_bounds (r : Qc) :
  In r rewards123 -> (Z2Qc 1 <= r)%Qc /\ (r <= Z2Qc 3)%Qc.
Proof.
  intros [<-|[<-|[<-|[]]]]; split; intros H; vm_compute in H; discriminate H.
Qed.

Lemma mean_reward_bounded_witness :
  started no_objects fresh /\ run trial123 fresh = Returned tt after123 /\
  rewards trial123 <> [] /\
  (forall r, In r (rewards trial123) -> (Z2Qc 1 <= r)%Qc /\ (r <= Z2Qc 3)%Qc) /\
  (Z2Qc 1 <= mean_reward after123)%Qc /\ (mean_reward after123 <= Z2Qc 3)%Qc.
Proof.
  split; [exact fresh_started|]. split; [exact run_trial123|].
  split; [discriminate|]. split; [exact rewards123_bounds|].
  destruct (mean_reward_bounded no_objects fresh after123 trial123 (Z2Qc 1) (Z2Qc 3)
              fresh_started run_trial123 ltac:(discriminate) rewards123_bounds)
    as (Hlo & Hhi & _).
  split; assumption.
Defined.


Lemma rewards_permuted :
  Permutation (rewards trial123)
    (rewards (trial 7 1 [Z2Qc 3; Z2Qc 1; Z2Qc 2])).
Proof.
  apply perm_trans with [Z2Qc 1; Z2Qc 3; Z2Qc 2].
  - apply perm_skip, perm_swap.
  - apply perm_swap.
Qed.

Lemma statistics_order_independent_witness :
  let cs2 := trial 7 1 [Z2Qc 3; Z2Qc 1; Z2Qc 2] in
  let t2 := state_after (run cs2 fresh) in
  started no_objects fresh /\
  run trial123 fresh = Returned tt after123 /\ run cs2 fresh = Returned tt t2 /\
  Permutation (rewards trial123) (rewards cs2) /\
  total_reward after123 = total_reward t2 /\
  mean_reward after123 = mean_reward t2 /\
  reward_m2 after123 = reward_m2 t2.
Proof.
  intros cs2 t2.
  assert (H2 : run cs2 fresh = Returned tt t2) by (vm_compute; reflexivity).
  split; [exact fresh_started|]. split; [exact run_trial123|].
  split; [exact H2|]. split; [exact rewards_permuted|].
  apply (statistics_order_independent no_objects fresh fresh after123 t2 trial123 cs2
           fresh_started fresh_started run_trial123 H2 rewards_permuted).
Defined.

Lemma configuration_never_changes_witness :
  let s := state_after (reset (state_after (exec (ModelUpdatePercept 7 (Z2Qc 1)) fresh))) in
  Agent_init no_objects (Some two_actions) ∅ = inr fresh /\
  evolves fresh s /\
  environment s = two_actions /\ options s = ∅ /\ learning_period s = 0.
Proof.
  intros s.
  assert (He : evolves fresh s) by (apply evolves_reset, evolves_exec, evolves_refl).
  split; [apply Agent_init_new|]. split; [exact He|].
  apply (configuration_never_changes no_objects two_actions ∅ fresh s
           (Agent_init_new _ _) He).
Defined.


Lemma rewards_10_bounded (r : Qc) : In r [Z2Qc 1; Z2Qc 0] -> (r <= 1)%Qc.
Proof.
  intros [<-|[<-|[]]]; intros H; vm_compute in H; discriminate H.
Qed.

Lemma rewards_within_maximum_reward_witness :
  let cs := trial 7 0 [Z2Qc 1; Z2Qc 0] in
  let s := state_after (run cs fresh) in
  started no_objects fresh /\ run cs fresh = Returned tt s /\
  Environment.maximum_reward (environment fresh) = Some 1%Qc /\
  (forall r, In r (rewards cs) -> (r <= 1)%Qc) /\
  maximum_reward s = Returned (Some 1%Qc) s /\
  (total_reward s <= 1 * Qclen (rewards cs))%Qc.
Proof.
  intros cs s.
  assert (H : run cs fresh = Returned tt s) by (vm_compute; reflexivity).
  split; [exact fresh_started|]. split; [exact H|]. split; [reflexivity|].
  split; [exact rewards_10_bounded|].
  destruct (rewards_within_maximum_reward no_objects fresh s cs 1%Qc
              fresh_started H eq_refl rewards_10_bounded) as (Hm & Ht & _).
  split; assumption.
Defined.

Lemma reward_m2_zero_iff_constant_witness :
  started no_objects fresh /\ run trial123 fresh = Returned tt after123 /\
  (reward_m2 after123 = 0%Qc <->
   forall r, In r (rewards trial123) -> r = mean_reward after123).
Proof.
  split; [exact fresh_started|]. split; [exact run_trial123|].
  apply (reward_m2_zero_iff_constant no_objects fresh after123 trial123
           fresh_started run_trial123).
Defined.

(** * Python's [int] and [float] at sample agents *)

Lemma python_numbers_raise_no_assertion : Py.raises_no_assertion Py.python_numbers.
Proof.
  assert (Hf : forall z e, Py.float_of_int z = inl e -> error_kind_of e = None).
  { intros z e. unfold Py.float_of_int.
    destruct (binary_normalize _ _ _ _ _); intros H; inversion H; reflexivity. }
  assert (Ht : forall x e, Py.to_float x = inl e -> error_kind_of e = None).
  { intros [z|f] e; simpl; [apply Hf | discriminate]. }
  assert (Hb : forall zop fop x y e,
             Py.binop zop fop x y = inl e -> error_kind_of e = None).
  { assert (Hg : forall (fop : spec_float -> spec_float -> spec_float) x y e,
               match Py.to_float x with
               | inl e => inl e
               | inr a =>
                   match Py.to_float y with
                   | inl e => inl e
                   | inr b => inr (Py.PyFloat (fop a b))
                   end
               end = inl e -> error_kind_of e = None).
    { intros fop x y e.
      destruct (Py.to_float x) as [e1|f1] eqn:E1;
        [intros H; inversion H; subst; apply (Ht _ _ E1)|].
      destruct (Py.to_float y) as [e2|f2] eqn:E2;
        [intros H; inversion H; subst; apply (Ht _ _ E2) | discriminate]. }
    intros zop fop x y e. unfold Py.binop.
    destruct x as [a|a], y as [b|b]; try discriminate; apply Hg. }
  repeat split; try (intros x y e; apply Hb).
  intros x n e. simpl. unfold Py.py_truediv. destruct x as [a|f].
  - destruct (n =? 0); [intros H; inversion H; reflexivity|].
    destruct (a =? 0); [discriminate|].
    destruct (SFdiv _ _ _ _); intros H; inversion H; reflexivity.
  - destruct (Py.float_of_int n) as [e1|b] eqn:E1;
      [intros H; inversion H; subst; apply (Hf _ _ E1)|].
    destruct (n =? 0); intros H; inversion H; reflexivity.
Qed.

Local Abbreviation py_fresh :=
  (@Py.Build_Agent Empty_set Py.python_numbers 0 two_actions action_update 0 ∅
     (Py.PyInt 0) (Py.PyInt 0) (Py.PyInt 0)).

Lemma py_fresh_constructed :
  Py.Agent_init no_objects Py.python_numbers (Some two_actions) ∅ = inr py_fresh.
Proof. unfold Py.Agent_init. rewrite lookup_empty. reflexivity. Qed.

(** C6, as stated, fails: after the rewards [10**308] and [10**308], both
    [int]s, the percept update with the reward [0.5] raises
    [OverflowError] at [self.total_reward += reward], the total reward
    [2 * 10**308] being beyond the range of [float]; by then the mean
    reward and M2, now an infinity, have been assigned. *)
Lemma percept_update_fails_halfway :
  let N := Py.python_numbers in
  let big := Py.PyInt (10 ^ 308) in
  let s1 := state_after (Py.model_update_percept N 7 big py_fresh) in
  let s2 := state_after (Py.model_update_action N 0 s1) in
  let s3 := state_after (Py.model_update_percept N 7 big s2) in
  let s4 := state_after (Py.model_update_action N 0 s3) in
  let s5 := state_after (Py.model_update_percept N 7 (Py.PyFloat Py.half) s4) in
  Py.model_update_percept N 7 big py_fresh = Returned tt s1 /\
  Py.model_update_action N 0 s1 = Returned tt s2 /\
  Py.model_update_percept N 7 big s2 = Returned tt s3 /\
  Py.model_update_action N 0 s3 = Returned tt s4 /\
  Py.model_update_percept N 7 (Py.PyFloat Py.half) s4 = Raised OverflowError s5 /\
  Py.total_reward N s4 = Py.PyInt (2 * 10 ^ 308) /\
  Py.mean_reward N s5 <> Py.mean_reward N s4 /\
  Py.reward_m2 N s4 = Py.PyFloat (S754_zero false) /\
  Py.reward_m2 N s5 = Py.PyFloat (S754_infinity false).
Proof.
  intros N big s1 s2 s3 s4 s5.
  repeat split; try reflexivity.
  lazy. discriminate.
Qed.

Local Abbreviation py_perceived :=
  (state_after (Py.model_update_percept Py.python_numbers 7 (Py.PyInt 1) py_fresh)).

Lemma py_first_percept :
  Py.model_update_percept Py.python_numbers 7 (Py.PyInt 1) py_fresh =
    Returned tt py_perceived.
Proof. reflexivity. Qed.

Lemma first_call_of_fresh_agent_witness :
  Py.raises_no_assertion Py.python_numbers /\
  Py.Agent_init no_objects Py.python_numbers (Some two_actions) ∅ = inr py_fresh /\
  Py.model_update_percept Py.python_numbers 7 (Py.PyInt 1) py_fresh =
    Returned tt py_perceived /\
  Py.last_update Py.python_numbers py_perceived = percept_update /\
  Py.model_update_percept Py.python_numbers 7 (Py.PyInt (10 ^ 400)) py_fresh =
    Raised OverflowError py_fresh /\
  error_kind_of OverflowError <> Some ProtocolError /\
  exists e, Py.model_update_action Py.python_numbers 1 py_fresh = Raised e py_fresh /\
            error_kind_of e = Some ProtocolError.
Proof.
  pose proof (first_call_of_fresh_agent no_objects Py.python_numbers two_actions ∅
                py_fresh python_numbers_raise_no_assertion py_fresh_constructed)
    as (H1 & H2 & H3).
  assert (Ho : Py.model_update_percept Py.python_numbers 7 (Py.PyInt (10 ^ 400))
                 py_fresh = Raised OverflowError py_fresh)
    by reflexivity.
  split; [exact python_numbers_raise_no_assertion|].
  split; [exact py_fresh_constructed|].
  split; [exact py_first_percept|].
  split; [exact (H2 _ _ _ py_first_percept)|].
  split; [exact Ho|].
  split; [exact (H1 _ _ _ _ Ho)|].
  apply H3. reflexivity.
Defined.


Lemma failed_update_changes_nothing_witness :
  Environment.is_valid_action two_actions 2 = false /\
  (exists e, Py.model_update_action Py.python_numbers 2 py_fresh = Raised e py_fresh /\
             error_kind_of e = Some InvalidActionError) /\
  Py.last_update Py.python_numbers py_perceived = percept_update /\
  (exists e, Py.model_update_percept Py.python_numbers 7 (Py.PyInt 2) py_perceived =
               Raised e py_perceived /\
             error_kind_of e = Some ProtocolError).
Proof.
  split; [reflexivity|]. split.
  - apply (proj1 (failed_update_changes_nothing Py.python_numbers py_fresh) 2).
    reflexivity.
  - split; [reflexivity|].
    apply (proj1 (proj2 (proj2 (failed_update_changes_nothing Py.python_numbers
                                  py_perceived))) 7 (Py.PyInt 2)).
    reflexivity.
Defined.

Lemma update_acceptance_witness :
  Py.last_update Py.python_numbers py_perceived = percept_update /\
  Py.model_update_percept Py.python_numbers 7 (Py.PyInt 2) py_perceived =
    Raised (AssertionError PerceptAfterAction) py_perceived /\
  exists s', Py.model_update_action Py.python_numbers 0 py_perceived = Returned tt s'.
Proof.
  split; [reflexivity|]. split.
  - apply (proj1 (update_acceptance Py.python_numbers py_perceived) 7 (Py.PyInt 2)).
    reflexivity.
  - apply (proj1 (proj2 (proj2 (proj2 (update_acceptance Py.python_numbers
                                         py_perceived)))) 0).
    split; reflexivity.
Defined.
